(** * nn_graph: the model-to-graph transformation of [SimpleNNNetworkGraph]

    A shallow embedding of [src/graph.py]: the construction of the
    directed graph ([_create_graph], [_add_projection],
    [_get_edge_attributes], [_format_edge_info], [_add_input_edge],
    [_update_node_shapes]) together with the parts of Python and networkx
    it runs on (insertion-ordered dictionaries, exceptions, [DiGraph]'s
    [add_node] and [add_edge]). *)

From stdpp Require Import base strings gmap list pretty.

Local Open Scope string_scope.
Local Open Scope list_scope.

(** ** Python exceptions *)

Inductive exn :=
  | KeyError (key : string)
  | AttributeError (msg : string)
  | ValueError (msg : string)
  | IndexError (msg : string)
  | TypeError (msg : string).

Inductive result (A : Type) :=
  | Ok (a : A)
  | Raise (e : exn).
Arguments Ok {A} a.
Arguments Raise {A} e.

Global Instance result_ret : MRet result := λ A a, Ok a.
Global Instance result_bind : MBind result := λ A B f r,
  match r with
  | Ok a => f a
  | Raise e => Raise e
  end.

Definition raises {A} (r : result A) : Prop := ∃ e, r = Raise e.

(** A [for] loop whose body may raise: the first exception ends it. *)
Fixpoint for_each {S X : Type} (body : S → X → result S) (s : S) (xs : list X)
    : result S :=
  match xs with
  | [] => Ok s
  | x :: xs' =>
      match body s x with
      | Ok s' => for_each body s' xs'
      | Raise e => Raise e
      end
  end.

(** ** Insertion-ordered dictionaries

    A Python [dict] keeps its keys in insertion order, holds each key once,
    and assigning to a key that is present keeps the key's position. *)

Module PyDict.
Section dict.
Context {K V : Type} `{EqDecision K}.

Fixpoint get (k : K) (d : list (K * V)) : option V :=
  match d with
  | [] => None
  | (k', v) :: d' => if decide (k = k') then Some v else get k d'
  end.

(** [d[k] = v] *)
Fixpoint set (k : K) (v : V) (d : list (K * V)) : list (K * V) :=
  match d with
  | [] => [(k, v)]
  | (k', v') :: d' =>
      if decide (k = k') then (k, v) :: d' else (k', v') :: set k v d'
  end.

Definition keys (d : list (K * V)) : list K := d.*1.

Definition values (d : list (K * V)) : list V := d.*2.

(** [k in d] *)
Definition mem (k : K) (d : list (K * V)) : bool :=
  match get k d with Some _ => true | None => false end.

(** [d.update(d')] *)
Definition update (d d' : list (K * V)) : list (K * V) :=
  foldl (λ acc kv, set kv.1 kv.2 acc) d d'.

(** [d[k]], raising [err] (a [KeyError]) when the key is missing. *)
Definition getitem (err : exn) (k : K) (d : list (K * V)) : result V :=
  match get k d with
  | Some v => Ok v
  | None => Raise err
  end.

End dict.
End PyDict.

Abbreviation dict K V := (list (K * V)) (only parsing).

(** ** What the build takes from outside the repository

    JSON numbers that are not integers become Python floats, and a colour
    specification goes through [float] and matplotlib's [to_rgba].  The
    build only observes a float through [str] (in an f-string) and through
    the comparison [< 1]; [to_rgba_of] is [to_rgba(tuple(map(float,
    s.split())))], [None] standing for the [ValueError] it raises. *)

Class Host := {
  float : Type;
  float_str : float → string;
  float_lt_one : float → bool;
  rgba : Type;
  to_rgba_of : string → option rgba;
}.

Section Graph.
Context `{Host}.

(** ** Values *)

Inductive num :=
  | NInt (z : Z)
  | NFloat (x : float).

(** [str(n)], as an f-string field renders it. *)
Definition num_str (n : num) : string :=
  match n with
  | NInt z => pretty z
  | NFloat x => float_str x
  end.

(** [n < 1] *)
Definition num_lt_one (n : num) : bool :=
  match n with
  | NInt z => bool_decide (z < 1)%Z
  | NFloat x => float_lt_one x
  end.

(** The values stored in node and edge attribute dictionaries. *)
Inductive value :=
  | VNone
  | VStr (s : string)
  | VNum (n : num)
  | VRgba (c : rgba).

(** An attribute dictionary (the keyword arguments of [add_node] and
    [add_edge], a node's or an edge's data). *)
Abbreviation attrs := (list (string * value)) (only parsing).

(** ** The parsed model (the JSON document after [json.loads])

    Fields the code reads with [d[key]] and the spec lists as required are
    record fields; fields read with [.get] or tested with [in] are options.
    [probability] is [proj.get('random_connectivity', {}).get('probability')];
    [weight] and [delay] are [None] both for a missing key and for a JSON
    [null] (the code tests [is not None]). *)

Record Population := {
  color : string;           (* pop['properties']['color'] *)
  size : num;               (* pop['size'] *)
}.

Record Input := {
  population : string;      (* input_info['population'] *)
  input_source : string;
}.

Record Projection := {
  presynaptic : string;
  postsynaptic : string;
  synapse : option string;
  probability : option num;
  directionality : option string;
  weight : option num;
  delay : option num;
}.

Record Network := {
  populations : dict string Population;
  inputs : option (dict string Input);
  input_sources : option (list string);   (* only its presence matters *)
  projections : dict string Projection;
}.

(** ** networkx.DiGraph

    Nodes and edges each live in a dictionary of attribute dictionaries;
    an edge is keyed by its ordered pair of endpoints. *)

Record DiGraph := {
  nodes : dict string attrs;
  edges : dict (string * string) attrs;
}.

Definition empty_graph : DiGraph := {| nodes := []; edges := [] |}.

(** [G.add_node(n, **kw)]: a new node starts from an empty attribute
    dictionary; in both cases the keyword arguments are merged in. *)
Definition add_node (n : string) (kw : attrs) (G : DiGraph) : DiGraph :=
  let old := default [] (PyDict.get n (nodes G)) in
  {| nodes := PyDict.set n (PyDict.update old kw) (nodes G);
     edges := edges G |}.

(** The endpoints of a new edge are added as nodes when missing. *)
Definition touch_node (n : string) (ns : dict string attrs) : dict string attrs :=
  if PyDict.mem n ns then ns else PyDict.set n [] ns.

(** [G.add_edge(u, v, **kw)] *)
Definition add_edge (u v : string) (kw : attrs) (G : DiGraph) : DiGraph :=
  let old := default [] (PyDict.get (u, v) (edges G)) in
  {| nodes := touch_node v (touch_node u (nodes G));
     edges := PyDict.set (u, v) (PyDict.update old kw) (edges G) |}.

(** [G.nodes[n][key] = v] *)
Definition set_node_attr (n key : string) (v : value) (G : DiGraph) : result DiGraph :=
  a ← PyDict.getitem (KeyError n) n (nodes G);
  Ok {| nodes := PyDict.set n (PyDict.set key v a) (nodes G);
        edges := edges G |}.

(** ** The synapse types tracked per node

    [node_synapse_types] maps a node to a Python [set] of category names;
    for an input node the code stores the string ['dummy'] instead of a
    set.  [x in s] is membership on a set and a substring test on a
    string; only a set has [.add]. *)

Inductive syn_types :=
  | TSet (s : gset string)
  | TStr (s : string).

Fixpoint is_substring (p s : string) : bool :=
  String.prefix p s ||
  match s with
  | EmptyString => false
  | String _ s' => is_substring p s'
  end.

Definition py_in (x : string) (t : syn_types) : bool :=
  match t with
  | TSet s => bool_decide (x ∈ s)
  | TStr s => is_substring x s
  end.

(** ** graph.py *)

Definition node_shapes : dict string string :=
  [("excitatory", "^"); ("inhibitory", "o"); ("generic", "s"); ("input", "h")].

(** [node_shapes[name]] for one of the four literal keys the code uses. *)
Definition node_shape (name : string) : string :=
  default "" (PyDict.get name node_shapes).

Definition _convert_color (color_str : string) : result rgba :=
  match to_rgba_of color_str with
  | Some c => Ok c
  | None => Raise (ValueError color_str)
  end.

Definition _format_edge_info (proj : Projection) : string :=
  match weight proj, delay proj with
  | Some w, Some d => "Weight: " +:+ num_str w +:+ ", Delay: " +:+ num_str d
  | Some w, None => "Weight: " +:+ num_str w
  | None, Some d => "Delay: " +:+ num_str d
  | None, None => ""
  end.

(** [proj['synapse']] *)
Definition proj_synapse (proj : Projection) : result string :=
  match synapse proj with
  | Some s => Ok s
  | None => Raise (KeyError "synapse")
  end.

Definition _get_edge_attributes (synapse_type : string) (proj : Projection)
    (style : string) (network : Network) : result attrs :=
  if decide (synapse_type = "ampaSyn") then
    syn ← proj_synapse proj;
    Ok [("synapse", VStr syn);
        ("style", VStr style);
        ("arrowstyle", VStr "-|>");
        ("color", VStr "blue");
        ("info", VStr (_format_edge_info proj));
        ("synapse_category", VStr "excitatory")]
  else if decide (synapse_type = "gabaSyn") then
    syn ← proj_synapse proj;
    Ok [("synapse", VStr syn);
        ("style", VStr style);
        ("arrowstyle", VNone);
        ("color", VStr "red");
        ("info", VStr (_format_edge_info proj));
        ("synapse_category", VStr "inhibitory")]
  else
    syn ← proj_synapse proj;
    pop ← PyDict.getitem (KeyError (presynaptic proj)) (presynaptic proj)
            (populations network);
    c ← _convert_color (color pop);
    Ok [("synapse", VStr syn);
        ("style", VStr style);
        ("arrowstyle", VStr "->");
        ("color", VRgba c);
        ("info", VStr (_format_edge_info proj));
        ("synapse_category", VStr "generic")].

(** [proj.get('synapse', 'generic')] *)
Definition synapse_type_of (proj : Projection) : string :=
  default "generic" (synapse proj).

(** ['dashed' if proj.get('random_connectivity', {}).get('probability', 1) < 1
    else 'solid'] *)
Definition style_of (proj : Projection) : string :=
  if num_lt_one (default (NInt 1) (probability proj)) then "dashed" else "solid".

(** The call [_add_projection] makes to the resolver. *)
Definition resolve_edge (proj : Projection) (network : Network) : result attrs :=
  _get_edge_attributes (synapse_type_of proj) proj (style_of proj) network.

(** [node_synapse_types[pre_pop].add(category)] *)
Definition add_synapse_type (pre_pop : string) (edge_attrs : attrs)
    (node_synapse_types : dict string syn_types) : result (dict string syn_types) :=
  t ← PyDict.getitem (KeyError pre_pop) pre_pop node_synapse_types;
  match t with
  | TStr _ => Raise (AttributeError "'str' object has no attribute 'add'")
  | TSet s =>
      c ← PyDict.getitem (KeyError "synapse_category") "synapse_category" edge_attrs;
      match c with
      | VStr cat => Ok (PyDict.set pre_pop (TSet ({[cat]} ∪ s)) node_synapse_types)
      | _ => Raise (TypeError "synapse_category")
      end
  end.

(** The state the build threads through its loops: the graph and the
    local [node_synapse_types]. *)
Definition build_state : Type := DiGraph * dict string syn_types.

Definition _add_projection (network : Network) (st : build_state)
    (proj : Projection) : result build_state :=
  let '(G, node_synapse_types) := st in
  let pre_pop := presynaptic proj in
  let post_pop := postsynaptic proj in
  edge_attrs ← resolve_edge proj network;
  nst ← add_synapse_type pre_pop edge_attrs node_synapse_types;
  if decide (directionality proj = Some "bidirectional") then
    Ok (add_edge post_pop pre_pop edge_attrs (add_edge pre_pop post_pop edge_attrs G), nst)
  else
    Ok (add_edge pre_pop post_pop edge_attrs G, nst).

Definition _add_input_edge (G : DiGraph) (input_id : string) (input_info : Input)
    : DiGraph :=
  let target_pop := population input_info in
  add_edge input_id target_pop
    [("synapse", VStr "input"); ("style", VStr "solid");
     ("arrowstyle", VStr "->"); ("color", VStr "yellow")] G.

(** The body of the loop of [_update_node_shapes] (the [print] of the
    ['dummy'] branch writes to standard output only). *)
Definition update_node_shape (G : DiGraph) (item : string * syn_types)
    : result DiGraph :=
  let '(node, synapse_types) := item in
  if py_in "excitatory" synapse_types && py_in "inhibitory" synapse_types then
    set_node_attr node "shape" (VStr (node_shape "generic")) G
  else if py_in "excitatory" synapse_types then
    G1 ← set_node_attr node "shape" (VStr (node_shape "excitatory")) G;
    set_node_attr node "color" (VStr "blue") G1
  else if py_in "inhibitory" synapse_types then
    G1 ← set_node_attr node "shape" (VStr (node_shape "inhibitory")) G;
    set_node_attr node "color" (VStr "red") G1
  else if py_in "dummy" synapse_types then
    set_node_attr node "shape" (VStr (node_shape "input")) G
  else
    set_node_attr node "shape" (VStr (node_shape "generic")) G.

Definition _update_node_shapes (G : DiGraph)
    (node_synapse_types : dict string syn_types) : result DiGraph :=
  for_each update_node_shape G node_synapse_types.

(** The three loops of [_create_graph]. *)
Definition add_population (G : DiGraph) (item : string * Population)
    : result DiGraph :=
  let '(pop_id, pop) := item in
  c ← _convert_color (color pop);
  Ok (add_node pop_id
        [("color", VRgba c); ("shape", VStr (node_shape "generic"));
         ("size", VNum (size pop))] G).

Definition add_input (network : Network) (st : build_state)
    (item : string * Input) : result build_state :=
  let '(G, node_synapse_types) := st in
  let '(input_id, input_info) := item in
  c ← _convert_color "1 1 0";
  let G1 := add_node input_id
              [("color", VRgba c); ("shape", VStr (node_shape "input"));
               ("size", VNum (NInt 2))] G in
  match input_sources network with
  | None => Raise (KeyError "input_sources")
  | Some _ =>
      Ok (_add_input_edge G1 input_id input_info,
          PyDict.set input_id (TStr "dummy") node_synapse_types)
  end.

(** The phases of [_create_graph] on the network object: the population
    nodes and the fresh [node_synapse_types]; the [inputs] block with its
    call of [_update_node_shapes]; the projections. *)
Definition init_state (network : Network) : result build_state :=
  G ← for_each add_population empty_graph (populations network);
  Ok (G, (λ node, (node, TSet ∅)) <$> PyDict.keys (nodes G)).

Definition inputs_phase (network : Network) (st : build_state)
    : result build_state :=
  match inputs network with
  | Some (item :: items) =>
      '(G1, nst) ← for_each (add_input network) st (item :: items);
      G2 ← _update_node_shapes G1 nst;
      Ok (G2, nst)
  | _ => Ok st
  end.

(** [_create_graph] on the network object, returning the local
    [node_synapse_types] along with the graph. *)
Definition build (network : Network) : result build_state :=
  st0 ← init_state network;
  st1 ← inputs_phase network st0;
  for_each (_add_projection network) st1 (PyDict.values (projections network)).

Definition _create_graph (network_data : dict string Network) : result DiGraph :=
  match network_data with
  | [] => Raise (IndexError "list index out of range")
  | (network_id, network) :: _ => st ← build network; Ok st.1
  end.

End Graph.

Abbreviation attrs := (list (string * value)) (only parsing).

(** ** Notions used to state the properties of the built graph *)

Section Notions.
Context `{Host}.

Definition node_keys : list string := ["color"; "shape"; "size"].

Definition edge_keys : list string :=
  ["synapse"; "style"; "arrowstyle"; "color"; "info"; "synapse_category"].

Definition input_edge_keys : list string :=
  ["synapse"; "style"; "arrowstyle"; "color"].

(** The keyword arguments of the [add_edge] call in [_add_input_edge]. *)
Definition input_edge_attrs : attrs :=
  [("synapse", VStr "input"); ("style", VStr "solid");
   ("arrowstyle", VStr "->"); ("color", VStr "yellow")].

(** [G.nodes[n][key]] and [G.edges[u, v][key]], when present. *)
Definition node_attr (G : DiGraph) (n key : string) : option value :=
  a ← PyDict.get n (nodes G); PyDict.get key a.


(** The ordered pairs for which [_add_projection] calls [add_edge]. *)
Definition edge_pairs (proj : Projection) : list (string * string) :=
  if decide (directionality proj = Some "bidirectional")
  then [(presynaptic proj, postsynaptic proj); (postsynaptic proj, presynaptic proj)]
  else [(presynaptic proj, postsynaptic proj)].

(** The last projection of a list, in processing order, that writes the
    edge of an ordered pair. *)
Fixpoint last_writer (uv : string * string) (ps : list Projection)
    : option Projection :=
  match ps with
  | [] => None
  | p :: ps' =>
      match last_writer uv ps' with
      | Some q => Some q
      | None => if bool_decide (uv ∈ edge_pairs p) then Some p else None
      end
  end.

(** The ordered pairs of the input edges: none unless the build enters
    its [inputs] branch. *)
Definition input_pairs (network : Network) : list (string * string) :=
  match inputs network with
  | Some items => (λ item : string * Input, (item.1, population item.2)) <$> items
  | None => []
  end.

(** Every edge dictionary holds an initial segment of the six edge keys
    (the input edges hold the first four). *)
Definition edges_wf (G : DiGraph) : Prop :=
  ∀ uv old, PyDict.get uv (edges G) = Some old →
    PyDict.keys old `prefix_of` edge_keys.

(** Before the projections are processed every edge is an input edge. *)
Definition only_input_edges (G : DiGraph) : Prop :=
  ∀ uv old, PyDict.get uv (edges G) = Some old → old = input_edge_attrs.

(** The ids of the input nodes the build creates. *)
Definition input_ids (network : Network) : list string :=
  match inputs network with
  | Some items => PyDict.keys items
  | None => []
  end.

(** The nodes the model declares, as populations or as inputs. *)
Definition declared_nodes (network : Network) : list string :=
  PyDict.keys (populations network) ++ input_ids network.

(** The shape [add_node] gave a node when it was created: population
    nodes are tracked with a set, input nodes with a string. *)
Definition created_shape (t : syn_types) : string :=
  match t with
  | TSet _ => node_shape "generic"
  | TStr _ => node_shape "input"
  end.

(** What the build maintains about nodes: a tracked node carries
    [color], [shape], [size], with the shape it was created with; a node
    that is not tracked was added by [add_edge] and carries nothing. *)
Definition nodes_inv (G : DiGraph) (nst : dict string syn_types) : Prop :=
  NoDup (PyDict.keys nst) ∧
  (∀ n t, PyDict.get n nst = Some t →
     ∃ a, PyDict.get n (nodes G) = Some a ∧ PyDict.keys a = node_keys
        ∧ PyDict.get "shape" a = Some (VStr (created_shape t))) ∧
  (∀ n a, PyDict.get n (nodes G) = Some a → PyDict.get n nst = None → a = []).

(** Until the projections are processed, the tracked types are the
    initial ones. *)
Definition fresh_types (nst : dict string syn_types) : Prop :=
  ∀ n t, PyDict.get n nst = Some t → t = TSet ∅ ∨ t = TStr "dummy".

(** Which nodes are tracked, and how, once the inputs are processed. *)
Definition types_inv (network : Network) (nst : dict string syn_types) : Prop :=
  ∀ n,
    if bool_decide (n ∈ input_ids network) then
      PyDict.get n nst = Some (TStr "dummy")
    else if bool_decide (n ∈ PyDict.keys (populations network)) then
      ∃ s, PyDict.get n nst = Some (TSet s)
    else PyDict.get n nst = None.

(** The graph while the population nodes are being added. *)
Definition population_nodes_ok (G : DiGraph) : Prop :=
  edges G = [] ∧ NoDup (PyDict.keys (nodes G)) ∧
  ∀ n a, PyDict.get n (nodes G) = Some a →
    PyDict.keys a = node_keys
    ∧ PyDict.get "shape" a = Some (VStr (node_shape "generic")).

(** The state while the inputs are being added. *)
Definition inputs_inv (st : build_state) : Prop :=
  nodes_inv st.1 st.2 ∧ fresh_types st.2 ∧ only_input_edges st.1
  ∧ NoDup (PyDict.keys (edges st.1)).

(** The state while the projections are being processed. *)
Definition projections_inv (network : Network) (st : build_state) : Prop :=
  nodes_inv st.1 st.2 ∧ types_inv network st.2 ∧ edges_wf st.1
  ∧ NoDup (PyDict.keys (edges st.1)).

(** The build stopped after a given list of projections: [build] is
    [build_prefix] on all of them. *)
Definition build_prefix (network : Network) (ps : list Projection)
    : result build_state :=
  st0 ← init_state network;
  st1 ← inputs_phase network st0;
  for_each (_add_projection network) st1 ps.

End Notions.

(** ** Further notions: categories, endpoints, the attributes nodes are
    created with *)

Section MoreNotions.
Context `{Host}.

(** The category the resolver gives a projection, by the kind
    [proj.get('synapse', 'generic')]. *)
Definition category_of (proj : Projection) : string :=
  if decide (synapse_type_of proj = "ampaSyn") then "excitatory"
  else if decide (synapse_type_of proj = "gabaSyn") then "inhibitory"
  else "generic".

(** A node is an endpoint of some edge of the graph. *)
Definition endpoint (G : DiGraph) (n : string) : Prop :=
  ∃ uv, uv ∈ PyDict.keys (edges G) ∧ (n = uv.1 ∨ n = uv.2).

(** The keyword arguments of the two [add_node] calls of [_create_graph]. *)
Definition population_attrs (c : rgba) (pop : Population) : attrs :=
  [("color", VRgba c); ("shape", VStr (node_shape "generic"));
   ("size", VNum (size pop))].

Definition input_node_attrs (c : rgba) : attrs :=
  [("color", VRgba c); ("shape", VStr (node_shape "input"));
   ("size", VNum (NInt 2))].

(** What [_update_node_shapes] may change between two graphs: nothing but
    the [shape] and [color] attributes of nodes. *)
Definition shape_update (G G' : DiGraph) : Prop :=
  edges G' = edges G ∧
  PyDict.keys (nodes G') = PyDict.keys (nodes G) ∧
  ∀ n key, key ≠ "shape" → key ≠ "color" → node_attr G' n key = node_attr G n key.

(** The graph is closed under its edges, and every node is tracked or is
    an endpoint of an edge. *)
Definition nodes_cover (G : DiGraph) (nst : dict string syn_types) : Prop :=
  NoDup (PyDict.keys (nodes G)) ∧
  (∀ uv, uv ∈ PyDict.keys (edges G) →
     uv.1 ∈ PyDict.keys (nodes G) ∧ uv.2 ∈ PyDict.keys (nodes G)) ∧
  (∀ n, n ∈ PyDict.keys (nodes G) → n ∈ PyDict.keys nst ∨ endpoint G n).

(** Every node has a numeric [size] or no attribute at all. *)
Definition sized (G : DiGraph) : Prop :=
  ∀ n a, PyDict.get n (nodes G) = Some a →
    a = [] ∨ ∃ m, PyDict.get "size" a = Some (VNum m).

End MoreNotions.

(** ** The layout and the first step of drawing

    [set_node_positions] and the computation of [max_size] that opens
    [draw_graph]. The point [(cos(angle), sin(angle))] for [angle = 2 * pi
    * i / n], and the comparisons [>] on floats and on colour tuples, are
    float computations taken as parameters. *)

Section Drawing.
Context `{Host}.
Variable point : Type.
Variable circle_point : nat → nat → point.
Variable float_num_gt : num → num → bool.
Variable rgba_gt : rgba → rgba → bool.

(** [enumerate(l)], counting from [i]. *)
Fixpoint enumerate_from {A} (i : nat) (l : list A) : list (nat * A) :=
  match l with
  | [] => []
  | x :: l' => (i, x) :: enumerate_from (S i) l'
  end.

Definition set_node_positions (G : DiGraph) : dict string point :=
  let nodes_list := PyDict.keys (nodes G) in
  foldl (λ pos item, PyDict.set item.2 (circle_point item.1 (length nodes_list)) pos)
        [] (enumerate_from 0 nodes_list).

(** [a > b] on two JSON numbers: exact on integers. *)
Definition num_gt (a b : num) : bool :=
  match a, b with
  | NInt x, NInt y => bool_decide (y < x)%Z
  | _, _ => float_num_gt a b
  end.

(** [a > b] on attribute values: numbers, strings and tuples compare
    with their own kind, anything else is a [TypeError]. *)
Definition py_gt (a b : value) : result bool :=
  match a, b with
  | VNum x, VNum y => Ok (num_gt x y)
  | VStr x, VStr y => Ok (String.ltb y x)
  | VRgba x, VRgba y => Ok (rgba_gt x y)
  | _, _ => Raise (TypeError "'>' not supported")
  end.

(** One round of [max] over the generator [data['size'] for _, data in
    G.nodes(data=True)]: the next value is produced, then compared. *)
Definition max_step (best : value) (item : string * attrs) : result value :=
  x ← PyDict.getitem (KeyError "size") "size" item.2;
  b ← py_gt x best;
  Ok (if b : bool then x else best).

(** [max_size = max(data['size'] for _, data in self.G.nodes(data=True))] *)
Definition max_size (G : DiGraph) : result value :=
  match nodes G with
  | [] => Raise (ValueError "max() arg is an empty sequence")
  | (_, data) :: rest =>
      first ← PyDict.getitem (KeyError "size") "size" data;
      for_each max_step first rest
  end.

End Drawing.


(** ** A host and models to run the build on

    The host knows three floats and three colour specifications, with
    Python's answers for them ([str(0.3)], [0.3 < 1], [to_rgba((0.0, 0.0,
    1.0))], ...); every other colour specification is refused. *)

Inductive sample_float := F0_3 | F1_0 | F2_5.

Definition sample_host : Host := {|
  float := sample_float;
  float_str x := match x with F0_3 => "0.3" | F1_0 => "1.0" | F2_5 => "2.5" end;
  float_lt_one x := match x with F0_3 => true | _ => false end;
  rgba := list nat;
  to_rgba_of s :=
    if decide (s = "0 0 1") then Some [0; 0; 1; 1]
    else if decide (s = "1 1 0") then Some [1; 1; 0; 1]
    else if decide (s = "1 0 0") then Some [1; 0; 0; 1]
    else None;
|}.

Definition sample_pop (c : string) (n : Z) : @Population sample_host :=
  {| color := c; size := NInt n |}.

Definition sample_proj (pre post : string) (syn direction : option string)
    (w d : option (@num sample_host)) : @Projection sample_host :=
  {| presynaptic := pre; postsynaptic := post; synapse := syn;
     probability := None; directionality := direction;
     weight := w; delay := d |}.

(** One population with an [ampaSyn] projection onto itself. *)
Definition scenario_A : @Network sample_host :=
  {| populations := [("P", sample_pop "0 0 1" 10)];
     inputs := None; input_sources := None;
     projections :=
       [("p1", sample_proj "P" "P" (Some "ampaSyn") None None None)] |}.

(** The same projection declared bidirectional. *)
Definition self_loop_model : @Network sample_host :=
  {| populations := [("P", sample_pop "0 0 1" 10)];
     inputs := None; input_sources := None;
     projections :=
       [("p1", sample_proj "P" "P" (Some "ampaSyn") (Some "bidirectional")
                 None None)] |}.

(** Two populations joined by a bidirectional projection. *)
Definition bidirectional_model : @Network sample_host :=
  {| populations := [("P", sample_pop "0 0 1" 10); ("Q", sample_pop "1 0 0" 4)];
     inputs := None; input_sources := None;
     projections :=
       [("p1", sample_proj "P" "Q" (Some "gabaSyn") (Some "bidirectional")
                 (Some (@NInt sample_host 5)) (Some (@NFloat sample_host F2_5)))] |}.

(** Two projections over the same ordered pair. *)
Definition overwrite_model : @Network sample_host :=
  {| populations := [("P", sample_pop "0 0 1" 10); ("Q", sample_pop "1 0 0" 4)];
     inputs := None; input_sources := None;
     projections :=
       [("p1", sample_proj "P" "Q" (Some "ampaSyn") None None None);
        ("p2", sample_proj "P" "Q" (Some "gabaSyn") None None None)] |}.

(** One input feeding one population. *)
Definition scenario_D : @Network sample_host :=
  {| populations := [("Q", sample_pop "0 0 1" 10)];
     inputs := Some [("I", {| population := "Q"; input_source := "src" |})];
     input_sources := Some ["src"];
     projections := [] |}.

(** A postsynaptic id and an input target that name no population. *)
Definition dangling_model : @Network sample_host :=
  {| populations := [("Q", sample_pop "0 0 1" 10)];
     inputs := Some [("I", {| population := "X"; input_source := "src" |})];
     input_sources := Some ["src"];
     projections :=
       [("p1", sample_proj "Q" "Z" (Some "ampaSyn") None None None)] |}.

(** A presynaptic id that names no population. *)
Definition unknown_pre_model : @Network sample_host :=
  {| populations := [("Q", sample_pop "0 0 1" 10)];
     inputs := None; input_sources := None;
     projections :=
       [("p1", sample_proj "Q" "Q" (Some "ampaSyn") None None None);
        ("p2", sample_proj "X" "Q" (Some "ampaSyn") None None None)] |}.

(** A projection of kind [generic], spelled out. *)
Definition generic_model : @Network sample_host :=
  {| populations := [("P", sample_pop "0 0 1" 10)];
     inputs := None; input_sources := None;
     projections :=
       [("p1", sample_proj "P" "P" (Some "generic") None None None)] |}.

(** A projection with no [synapse] key. *)
Definition no_synapse_model : @Network sample_host :=
  {| populations := [("P", sample_pop "0 0 1" 10)];
     inputs := None; input_sources := None;
     projections := [("p1", sample_proj "P" "P" None None None None)] |}.

(** A graph with the single population node of [scenario_A]. *)
Definition sample_graph : @DiGraph sample_host :=
  {| nodes := [("P", [("color", @VRgba sample_host [0; 0; 1; 1]);
                      ("shape", VStr "s"); ("size", VNum (NInt 10))])];
     edges := [] |}.



(** Python's [>] on the numbers and colour tuples of the sample host:
    numbers compare by their value (in tenths), tuples from the left. *)
Definition sample_tenths (n : @num sample_host) : Z :=
  match n with
  | NInt z => 10 * z
  | NFloat F0_3 => 3
  | NFloat F1_0 => 10
  | NFloat F2_5 => 25
  end.

Definition sample_num_gt (a b : @num sample_host) : bool :=
  bool_decide (sample_tenths b < sample_tenths a)%Z.

Fixpoint sample_rgba_gt (a b : list nat) : bool :=
  match a, b with
  | [], _ => false
  | _ :: _, [] => true
  | x :: a', y :: b' =>
      if decide (x = y) then sample_rgba_gt a' b' else bool_decide (y < x)%nat
  end.

(** * Facts *)

(** ** Dictionaries *)

Module PyDictFacts.
Import PyDict.
Section facts.
Context {K V : Type} `{EqDecision K}.
Implicit Types (d : list (K * V)) (k : K) (v : V).

Lemma get_set_eq k v d : get k (set k v d) = Some v.
Proof.
  induction d as [|[k' v'] d IH]; simpl.
  - by rewrite decide_True.
  - destruct (decide (k = k')) as [->|Hne]; simpl.
    + by rewrite decide_True.
    + by rewrite decide_False.
Qed.

Lemma get_set_ne k k' v d : k ≠ k' → get k' (set k v d) = get k' d.
Proof.
  intros Hne. induction d as [|[k0 v0] d IH]; simpl.
  - rewrite decide_False; [done | congruence].
  - destruct (decide (k = k0)) as [->|Hk]; simpl.
    + rewrite !decide_False; [done | congruence | congruence].
    + by rewrite IH.
Qed.

Lemma get_set k k' v d :
  get k' (set k v d) = if decide (k' = k) then Some v else get k' d.
Proof.
  destruct (decide (k' = k)) as [->|Hne].
  - apply get_set_eq.
  - apply get_set_ne. congruence.
Qed.

Lemma get_None k d : get k d = None ↔ k ∉ keys d.
Proof.
  unfold keys. induction d as [|[k' v'] d IH]; simpl.
  - split; [intros _; apply not_elem_of_nil | done].
  - rewrite not_elem_of_cons. destruct (decide (k = k')); intuition congruence.
Qed.

Lemma get_is_Some k d : is_Some (get k d) ↔ k ∈ keys d.
Proof.
  rewrite <- not_eq_None_Some, get_None.
  destruct (decide (k ∈ keys d)); tauto.
Qed.

Lemma get_Some_elem k v d : get k d = Some v → (k, v) ∈ d.
Proof.
  induction d as [|[k' v'] d IH]; simpl; [done|].
  destruct (decide (k = k')) as [->|Hne].
  - intros [= ->]. apply list_elem_of_here.
  - intros Hg. apply list_elem_of_further. auto.
Qed.

Lemma elem_get k v d : NoDup (keys d) → (k, v) ∈ d → get k d = Some v.
Proof.
  unfold keys. induction d as [|[k' v'] d IH]; simpl.
  - intros _ Hin. by apply elem_of_nil in Hin.
  - rewrite NoDup_cons. intros [Hk' Hnd] Hin.
    apply elem_of_cons in Hin as [[= -> ->]|Hin].
    + by rewrite decide_True.
    + rewrite decide_False; [auto|].
      intros ->. apply Hk'. apply list_elem_of_fmap. by exists (k', v).
Qed.

Lemma set_fresh k v d : get k d = None → set k v d = d ++ [(k, v)].
Proof.
  induction d as [|[k' v'] d IH]; simpl; [done|].
  destruct (decide (k = k')); [done|]. intros Hg. by rewrite IH.
Qed.

Lemma set_app_r k v v0 d0 d :
  get k d0 = None → set k v (d0 ++ (k, v0) :: d) = d0 ++ (k, v) :: d.
Proof.
  induction d0 as [|[k' v'] d0 IH]; simpl.
  - intros _. by rewrite decide_True.
  - destruct (decide (k = k')); [done|]. intros Hg. by rewrite IH.
Qed.

Lemma keys_set_present k v d : is_Some (get k d) → keys (set k v d) = keys d.
Proof.
  unfold keys. induction d as [|[k' v'] d IH]; simpl.
  - by intros [? ?].
  - destruct (decide (k = k')) as [->|Hne]; csimpl; [done|].
    intros Hs. f_equal. by apply IH.
Qed.

Lemma keys_set_fresh k v d : get k d = None → keys (set k v d) = keys d ++ [k].
Proof. intros Hg. rewrite set_fresh by done. unfold keys. by rewrite fmap_app. Qed.

Lemma elem_of_keys_set k k' v d : k' ∈ keys (set k v d) ↔ k' = k ∨ k' ∈ keys d.
Proof.
  rewrite <- !get_is_Some, get_set.
  destruct (decide (k' = k)) as [->|Hne].
  - split; [by left | by eauto].
  - split; [by right | by intros [?|?]].
Qed.

Lemma NoDup_keys_set k v d : NoDup (keys d) → NoDup (keys (set k v d)).
Proof.
  intros Hnd. destruct (get k d) as [v0|] eqn:Hg.
  - by rewrite keys_set_present.
  - rewrite keys_set_fresh by done. apply NoDup_app. split_and!; [done | | apply NoDup_singleton].
    intros x Hx Hx'. apply list_elem_of_singleton in Hx' as ->.
    by apply get_None in Hg.
Qed.

Lemma update_app d d1 d2 : update d (d1 ++ d2) = update (update d d1) d2.
Proof. unfold update. by rewrite foldl_app. Qed.

(** Merging in keys that are all new appends them in order. *)
Lemma update_fresh d d' : NoDup (keys (d ++ d')) → update d d' = d ++ d'.
Proof.
  revert d. induction d' as [|[k v] d' IH]; intros d Hnd.
  - by rewrite app_nil_r.
  - change (update d ((k, v) :: d')) with (update (set k v d) d').
    assert (get k d = None) as Hg.
    { apply get_None. unfold keys in *. rewrite fmap_app in Hnd.
      apply NoDup_app in Hnd as (_ & Hdisj & _).
      intros Hin. apply (Hdisj _ Hin). simpl. apply list_elem_of_here. }
    rewrite set_fresh by done. rewrite IH; [by rewrite <- app_assoc|].
    by rewrite <- app_assoc.
Qed.

(** Merging a dictionary over one with the same keys in the same order
    replaces it. *)
Lemma update_overwrite d0 d d' :
  keys d = keys d' → NoDup (keys (d0 ++ d')) → update (d0 ++ d) d' = d0 ++ d'.
Proof.
  revert d0 d. induction d' as [|[k v] d' IH]; intros d0 d Hk Hnd.
  - destruct d; [done | discriminate].
  - destruct d as [|[k0 v0] d]; [discriminate|].
    unfold keys in Hk. simpl in Hk. injection Hk as -> Hk.
    change (update (d0 ++ (k, v0) :: d) ((k, v) :: d'))
      with (update (set k v (d0 ++ (k, v0) :: d)) d').
    assert (get k d0 = None) as Hg.
    { apply get_None. unfold keys in *. rewrite fmap_app in Hnd.
      apply NoDup_app in Hnd as (_ & Hdisj & _).
      intros Hin. apply (Hdisj _ Hin). simpl. apply list_elem_of_here. }
    rewrite set_app_r by done.
    replace (d0 ++ (k, v) :: d) with ((d0 ++ [(k, v)]) ++ d) by by rewrite <- app_assoc.
    rewrite IH; [by rewrite <- app_assoc | done |].
    by rewrite <- app_assoc.
Qed.

(** The keyword arguments replace an attribute dictionary whose keys are
    an initial segment of theirs. *)
Lemma update_prefix d d' :
  keys d `prefix_of` keys d' → NoDup (keys d') → update d d' = d'.
Proof.
  intros [ks Hks] Hnd.
  assert (d' = take (length d) d' ++ drop (length d) d') as Hsplit
    by by rewrite take_drop.
  assert (keys (take (length d) d') = keys d) as Hk.
  { unfold keys in *. rewrite fmap_take, Hks, take_app_length'; [done|].
    by rewrite length_fmap. }
  rewrite Hsplit at 1. rewrite update_app.
  rewrite <- (app_nil_l d) at 1.
  rewrite update_overwrite; [| done |].
  - simpl. rewrite update_fresh; rewrite take_drop; done.
  - simpl. rewrite Hk. unfold keys in *. rewrite Hks in Hnd.
    by apply NoDup_app in Hnd as (? & _).
Qed.

Lemma set_same k v d : get k d = Some v → set k v d = d.
Proof.
  induction d as [|[k' v'] d IH]; simpl; [done|].
  destruct (decide (k = k')) as [->|Hne].
  - by intros [= ->].
  - intros Hg. by rewrite IH.
Qed.

Lemma get_update_empty d : NoDup (keys d) → update [] d = d.
Proof. intros Hnd. apply update_prefix; [apply prefix_nil | done]. Qed.

(** The dictionary comprehension [{k: v for k in ks}]. *)
Lemma get_const_dict (ks : list K) v k :
  get k ((λ k', (k', v)) <$> ks) = if bool_decide (k ∈ ks) then Some v else None.
Proof.
  induction ks as [|k' ks IH]; csimpl; [done|].
  destruct (decide (k = k')) as [->|Hne].
  - rewrite bool_decide_eq_true_2; [done | apply list_elem_of_here].
  - rewrite IH. destruct (decide (k ∈ ks)) as [Hin|Hnin].
    + rewrite !bool_decide_eq_true_2; [done | by apply list_elem_of_further | done].
    + rewrite !bool_decide_eq_false_2; [done | | done].
      intros [?|?]%elem_of_cons; done.
Qed.

Lemma keys_const_dict (ks : list K) v : keys ((λ k', (k', v)) <$> ks) = ks.
Proof.
  unfold keys. rewrite <- list_fmap_compose. induction ks; csimpl; congruence.
Qed.

End facts.
End PyDictFacts.

(** ** Results and loops *)

Lemma bind_Ok {A B} (r : result A) (f : A → result B) (b : B) :
  r ≫= f = Ok b ↔ ∃ a, r = Ok a ∧ f a = Ok b.
Proof.
  destruct r as [a|e]; simpl.
  - split; [by eauto | by intros (? & [= <-] & ?)].
  - split; [done | by intros (? & ? & _)].
Qed.

Lemma for_each_app {S X} (body : S → X → result S) s xs ys :
  for_each body s (xs ++ ys) = for_each body s xs ≫= λ s', for_each body s' ys.
Proof.
  revert s. induction xs as [|x xs IH]; intros s; simpl; [done|].
  destruct (body s x); [apply IH | done].
Qed.

(** A property kept by every successful iteration holds after the loop. *)
Lemma for_each_invariant {S X} (I : S → Prop) (body : S → X → result S) xs :
  (∀ s x s', x ∈ xs → I s → body s x = Ok s' → I s') →
  ∀ s s', I s → for_each body s xs = Ok s' → I s'.
Proof.
  induction xs as [|x xs IH]; intros Hstep s s' Hs; simpl.
  - by intros [= <-].
  - destruct (body s x) as [s1|] eqn:Hb; [|done].
    apply IH; [|by eapply Hstep; [apply list_elem_of_here|..]].
    intros ???? ; apply Hstep. by apply list_elem_of_further.
Qed.

(** If some iteration is bound to raise whenever it is reached, the loop
    raises. *)
Lemma for_each_raises {S X} (I : S → Prop) (body : S → X → result S) xs x0 :
  x0 ∈ xs →
  (∀ s x s', I s → body s x = Ok s' → I s') →
  (∀ s, I s → raises (body s x0)) →
  ∀ s, I s → raises (for_each body s xs).
Proof.
  intros Hin Hstep Hbad. induction xs as [|x xs IH]; intros s Hs.
  - by apply elem_of_nil in Hin.
  - simpl. destruct (body s x) as [s1|e] eqn:Hb; [|by exists e].
    apply elem_of_cons in Hin as [->|Hin].
    + destruct (Hbad s Hs) as [e He]. congruence.
    + apply IH; [done|]. by eapply Hstep.
Qed.

(** A loop whose iterations all succeed under an invariant they keep
    succeeds. *)
Lemma for_each_progress {S X} (I : S → Prop) (body : S → X → result S) xs :
  (∀ s x, x ∈ xs → I s → ∃ s', body s x = Ok s') →
  (∀ s x s', I s → body s x = Ok s' → I s') →
  ∀ s, I s → ∃ s', for_each body s xs = Ok s'.
Proof.
  intros Hok Hstep. induction xs as [|x xs IH]; intros s Hs; simpl.
  - by eauto.
  - destruct (Hok s x) as [s1 Hs1]; [apply list_elem_of_here | done |].
    rewrite Hs1. apply IH; [|by eapply Hstep].
    intros ????. apply Hok; [by apply list_elem_of_further | done].
Qed.

(** ** The graph operations *)

Section GraphFacts.
Context `{Host}.
Import PyDictFacts.

Lemma NoDup_edge_keys : NoDup edge_keys.
Proof. by apply (bool_decide_unpack _). Qed.

Lemma edges_add_node n kw G : edges (add_node n kw G) = edges G.
Proof. done. Qed.

Lemma get_edge_add_edge u v kw G uv :
  PyDict.get uv (edges (add_edge u v kw G)) =
    if decide (uv = (u, v))
    then Some (PyDict.update (default [] (PyDict.get (u, v) (edges G))) kw)
    else PyDict.get uv (edges G).
Proof. unfold add_edge; simpl. apply get_set. Qed.

Lemma NoDup_edges_add_edge u v kw G :
  NoDup (PyDict.keys (edges G)) → NoDup (PyDict.keys (edges (add_edge u v kw G))).
Proof. apply NoDup_keys_set. Qed.

(** On a well-formed graph, the attributes of a projection replace
    whatever the edge held. *)
Lemma add_edge_overwrites u v kw G :
  edges_wf G → PyDict.keys kw = edge_keys →
  PyDict.get (u, v) (edges (add_edge u v kw G)) = Some kw.
Proof.
  intros Hwf Hkw. rewrite get_edge_add_edge, decide_True by done. f_equal.
  apply update_prefix; [|rewrite Hkw; apply NoDup_edge_keys].
  rewrite Hkw. destruct (PyDict.get (u, v) (edges G)) as [old|] eqn:Hold; simpl.
  - by eapply Hwf.
  - apply prefix_nil.
Qed.

Lemma edges_wf_add_edge u v kw G :
  edges_wf G → PyDict.keys kw = edge_keys → edges_wf (add_edge u v kw G).
Proof.
  intros Hwf Hk uv old. destruct (decide (uv = (u, v))) as [->|Hne].
  - rewrite add_edge_overwrites by done. intros [= <-]. by rewrite Hk.
  - rewrite get_edge_add_edge, decide_False by done. apply Hwf.
Qed.

(** *** Input edges *)

Lemma only_input_edges_wf G : only_input_edges G → edges_wf G.
Proof.
  intros Hin uv old Hget. rewrite (Hin _ _ Hget).
  by exists ["info"; "synapse_category"].
Qed.

Lemma get_edge_add_input_edge G input_id input_info uv :
  only_input_edges G →
  PyDict.get uv (edges (_add_input_edge G input_id input_info)) =
    if decide (uv = (input_id, population input_info))
    then Some input_edge_attrs
    else PyDict.get uv (edges G).
Proof.
  intros Hin. unfold _add_input_edge. rewrite get_edge_add_edge.
  destruct (decide (uv = _)); [|done]. f_equal.
  destruct (PyDict.get _ (edges G)) as [old|] eqn:Hold; simpl; [|done].
  by rewrite (Hin _ _ Hold).
Qed.

Lemma only_input_edges_add_input_edge G input_id input_info :
  only_input_edges G → only_input_edges (_add_input_edge G input_id input_info).
Proof.
  intros Hin uv old. rewrite get_edge_add_input_edge by done.
  destruct (decide (uv = _)); [by intros [= <-] | apply Hin].
Qed.

(** *** The resolver *)

Lemma resolve_edge_keys proj network a :
  resolve_edge proj network = Ok a → PyDict.keys a = edge_keys.
Proof.
  unfold resolve_edge, _get_edge_attributes.
  repeat case_decide; intros Hr;
    repeat (apply bind_Ok in Hr as (? & _ & Hr)); by injection Hr as <-.
Qed.

Lemma resolve_edge_category proj network a :
  resolve_edge proj network = Ok a →
  ∃ cat, PyDict.get "synapse_category" a = Some (VStr cat).
Proof.
  unfold resolve_edge, _get_edge_attributes.
  repeat case_decide; intros Hr;
    repeat (apply bind_Ok in Hr as (? & _ & Hr)); injection Hr as <-; by eexists.
Qed.

(** *** One projection *)

Lemma add_projection_Ok network G nst proj G' nst' :
  _add_projection network (G, nst) proj = Ok (G', nst') →
  ∃ a, resolve_edge proj network = Ok a
     ∧ add_synapse_type (presynaptic proj) a nst = Ok nst'
     ∧ G' = if decide (directionality proj = Some "bidirectional")
            then add_edge (postsynaptic proj) (presynaptic proj) a
                   (add_edge (presynaptic proj) (postsynaptic proj) a G)
            else add_edge (presynaptic proj) (postsynaptic proj) a G.
Proof.
  unfold _add_projection. intros Hr.
  apply bind_Ok in Hr as (a & Ha & Hr). apply bind_Ok in Hr as (nst1 & Hn & Hr).
  exists a. case_decide; injection Hr as <- <-; done.
Qed.

Lemma elem_of_edge_pairs uv proj :
  uv ∈ edge_pairs proj ↔
    uv = (presynaptic proj, postsynaptic proj)
    ∨ (directionality proj = Some "bidirectional"
       ∧ uv = (postsynaptic proj, presynaptic proj)).
Proof.
  unfold edge_pairs. case_decide as Hbi.
  - rewrite !elem_of_cons, elem_of_nil. tauto.
  - rewrite list_elem_of_singleton. tauto.
Qed.

Lemma add_projection_edges network G nst proj G' nst' :
  _add_projection network (G, nst) proj = Ok (G', nst') → edges_wf G →
  ∃ a, resolve_edge proj network = Ok a ∧ edges_wf G' ∧
    ∀ uv, PyDict.get uv (edges G') =
            if bool_decide (uv ∈ edge_pairs proj) then Some a
            else PyDict.get uv (edges G).
Proof.
  intros Hr Hwf. apply add_projection_Ok in Hr as (a & Ha & _ & ->).
  pose proof (resolve_edge_keys _ _ _ Ha) as Hk.
  assert (edges_wf (add_edge (presynaptic proj) (postsynaptic proj) a G)) as Hwf1
    by by apply edges_wf_add_edge.
  exists a. split; [done|]. case_decide as Hbi.
  - split; [by apply edges_wf_add_edge|]. intros uv.
    destruct (decide (uv = (postsynaptic proj, presynaptic proj))) as [->|Hne2].
    { rewrite add_edge_overwrites by done.
      rewrite bool_decide_eq_true_2; [done|]. apply elem_of_edge_pairs. by right. }
    rewrite get_edge_add_edge, decide_False by done.
    destruct (decide (uv = (presynaptic proj, postsynaptic proj))) as [->|Hne1].
    { rewrite add_edge_overwrites by done.
      rewrite bool_decide_eq_true_2; [done|]. apply elem_of_edge_pairs. by left. }
    rewrite get_edge_add_edge, decide_False by done.
    rewrite bool_decide_eq_false_2; [done|]. rewrite elem_of_edge_pairs. tauto.
  - split; [done|]. intros uv.
    destruct (decide (uv = (presynaptic proj, postsynaptic proj))) as [->|Hne1].
    { rewrite add_edge_overwrites by done.
      rewrite bool_decide_eq_true_2; [done|]. apply elem_of_edge_pairs. by left. }
    rewrite get_edge_add_edge, decide_False by done.
    rewrite bool_decide_eq_false_2; [done|]. rewrite elem_of_edge_pairs. tauto.
Qed.

Lemma add_projection_NoDup_edges network G nst proj G' nst' :
  _add_projection network (G, nst) proj = Ok (G', nst') →
  NoDup (PyDict.keys (edges G)) → NoDup (PyDict.keys (edges G')).
Proof.
  intros Hr Hnd. apply add_projection_Ok in Hr as (a & _ & _ & ->).
  case_decide; repeat apply NoDup_edges_add_edge; done.
Qed.

(** *** The loop over the projections *)

(** After the loop, the edge of a pair holds the attributes resolved from
    the last projection that wrote it, and is untouched when none did. *)
Lemma projections_loop_edges network ps :
  ∀ G nst G' nst',
  for_each (_add_projection network) (G, nst) ps = Ok (G', nst') →
  edges_wf G →
  edges_wf G' ∧
  ∀ uv, match last_writer uv ps with
        | Some p => ∃ a, resolve_edge p network = Ok a
                       ∧ PyDict.get uv (edges G') = Some a
        | None => PyDict.get uv (edges G') = PyDict.get uv (edges G)
        end.
Proof.
  induction ps as [|p ps IH]; intros G nst G' nst' Hloop Hwf;
    cbn [for_each last_writer] in *.
  - by injection Hloop as <- <-.
  - destruct (_add_projection network (G, nst) p) as [[G1 nst1]|] eqn:Hstep; [|done].
    destruct (add_projection_edges _ _ _ _ _ _ Hstep Hwf) as (a & Ha & Hwf1 & Hget1).
    destruct (IH _ _ _ _ Hloop Hwf1) as [Hwf' Hget']. split; [done|].
    intros uv. specialize (Hget' uv). specialize (Hget1 uv).
    destruct (last_writer uv ps) as [q|]; [done|].
    destruct (bool_decide (uv ∈ edge_pairs p)).
    + exists a. by rewrite Hget', Hget1.
    + by rewrite Hget', Hget1.
Qed.

(** *** Nodes *)

Lemma NoDup_node_keys : NoDup node_keys.
Proof. by apply (bool_decide_unpack _). Qed.

Lemma get_node_add_node n kw G n' :
  PyDict.get n' (nodes (add_node n kw G)) =
    if decide (n' = n)
    then Some (PyDict.update (default [] (PyDict.get n (nodes G))) kw)
    else PyDict.get n' (nodes G).
Proof. apply get_set. Qed.

Lemma get_touch_node n ns n' :
  PyDict.get n' (touch_node n ns) =
    match PyDict.get n' ns with
    | Some a => Some a
    | None => if decide (n' = n) then Some [] else None
    end.
Proof.
  unfold touch_node, PyDict.mem. destruct (PyDict.get n ns) eqn:Hn.
  - destruct (PyDict.get n' ns) eqn:Hn'; [done|].
    rewrite decide_False; [done | congruence].
  - rewrite get_set. destruct (decide (n' = n)) as [->|]; [by rewrite Hn|].
    by destruct (PyDict.get n' ns).
Qed.

(** [add_edge] leaves the attributes of existing nodes alone and adds a
    missing endpoint with no attribute. *)
Lemma get_node_add_edge u v kw G n :
  PyDict.get n (nodes (add_edge u v kw G)) =
    match PyDict.get n (nodes G) with
    | Some a => Some a
    | None => if decide (n = u ∨ n = v) then Some [] else None
    end.
Proof.
  unfold add_edge; simpl. rewrite !get_touch_node.
  destruct (PyDict.get n (nodes G)); [done|].
  destruct (decide (n = u)) as [Hu|Hu], (decide (n = v)) as [Hv|Hv].
  - rewrite decide_True; [done | by left].
  - rewrite decide_True; [done | by left].
  - rewrite decide_True; [done | by right].
  - rewrite decide_False; [done | by intros [?|?]].
Qed.

Lemma NoDup_nodes_add_node n kw G :
  NoDup (PyDict.keys (nodes G)) → NoDup (PyDict.keys (nodes (add_node n kw G))).
Proof. apply NoDup_keys_set. Qed.

(** The keyword arguments of [add_node] replace the attributes of a node
    that had the three node keys or none. *)
Lemma node_kw_replaces (old kw : attrs) :
  old = [] ∨ PyDict.keys old = node_keys → PyDict.keys kw = node_keys →
  PyDict.update old kw = kw.
Proof.
  intros Hold Hkw. apply update_prefix; [|rewrite Hkw; apply NoDup_node_keys].
  destruct Hold as [-> | ->]; [apply prefix_nil | by rewrite Hkw].
Qed.

Lemma nodes_inv_old G nst n :
  nodes_inv G nst →
  let old := default [] (PyDict.get n (nodes G)) in
  old = [] ∨ PyDict.keys old = node_keys.
Proof.
  intros (_ & Htracked & Hother); simpl.
  destruct (PyDict.get n (nodes G)) as [a|] eqn:Ha; simpl; [|by left].
  destruct (PyDict.get n nst) as [t|] eqn:Ht.
  - destruct (Htracked _ _ Ht) as (a' & Ha' & Hk & _). right. congruence.
  - left. by eapply Hother.
Qed.

Lemma nodes_inv_add_edge u v kw G nst :
  nodes_inv G nst → nodes_inv (add_edge u v kw G) nst.
Proof.
  intros (Hnd & Htracked & Hother). split_and!; [done | |].
  - intros n t Ht. destruct (Htracked _ _ Ht) as (a & Ha & Hk & Hs).
    exists a. by rewrite get_node_add_edge, Ha.
  - intros n a. rewrite get_node_add_edge.
    destruct (PyDict.get n (nodes G)) as [a0|] eqn:Ha0.
    + intros [= <-]. by apply Hother.
    + case_decide; [by intros [= <-] | done].
Qed.

(** Creating a node and tracking it keeps the invariant. *)
Lemma nodes_inv_add_node n kw t G nst :
  nodes_inv G nst → PyDict.keys kw = node_keys →
  PyDict.get "shape" kw = Some (VStr (created_shape t)) →
  nodes_inv (add_node n kw G) (PyDict.set n t nst).
Proof.
  intros Hinv Hkw Hshape. pose proof (nodes_inv_old _ _ n Hinv) as Hold.
  destruct Hinv as (Hnd & Htracked & Hother). split_and!.
  - by apply NoDup_keys_set.
  - intros n' t'. rewrite get_set, get_node_add_node.
    destruct (decide (n' = n)) as [->|Hne]; [|apply Htracked].
    intros [= <-]. exists kw. by rewrite node_kw_replaces.
  - intros n' a. rewrite get_set, get_node_add_node.
    destruct (decide (n' = n)) as [->|Hne]; [done | apply Hother].
Qed.

(** Replacing the tracked types of a node by others of the same kind. *)
Lemma nodes_inv_retrack n t t' G nst :
  nodes_inv G nst → PyDict.get n nst = Some t → created_shape t' = created_shape t →
  nodes_inv G (PyDict.set n t' nst).
Proof.
  intros (Hnd & Htracked & Hother) Ht Hshape. split_and!.
  - by apply NoDup_keys_set.
  - intros n0 t0. rewrite get_set. destruct (decide (n0 = n)) as [->|Hne].
    + intros [= <-]. rewrite Hshape. by apply Htracked.
    + apply Htracked.
  - intros n0 a. rewrite get_set. destruct (decide (n0 = n)); [done | apply Hother].
Qed.

(** *** The population nodes *)

Lemma add_population_Ok G pop_id pop G' :
  add_population G (pop_id, pop) = Ok G' →
  ∃ c, _convert_color (color pop) = Ok c ∧
    G' = add_node pop_id
           [("color", VRgba c); ("shape", VStr (node_shape "generic"));
            ("size", VNum (size pop))] G.
Proof.
  unfold add_population. intros Hr. apply bind_Ok in Hr as (c & Hc & [= <-]).
  by exists c.
Qed.

Lemma add_population_nodes_ok G item G' :
  population_nodes_ok G → add_population G item = Ok G' → population_nodes_ok G'.
Proof.
  intros (He & Hnd & Hattrs) Hr. destruct item as [pop_id pop].
  apply add_population_Ok in Hr as (c & _ & ->). split_and!.
  - done.
  - by apply NoDup_nodes_add_node.
  - intros n a. rewrite get_node_add_node.
    destruct (decide (n = pop_id)) as [->|Hne]; [|apply Hattrs].
    rewrite node_kw_replaces; [by intros [= <-] | | done].
    destruct (PyDict.get pop_id (nodes G)) as [old|] eqn:Hold; simpl; [|by left].
    right. by destruct (Hattrs _ _ Hold).
Qed.

Lemma populations_loop_keys pops :
  ∀ G G', for_each add_population G pops = Ok G' →
  ∀ n, n ∈ PyDict.keys (nodes G') ↔
       n ∈ PyDict.keys (nodes G) ∨ n ∈ PyDict.keys pops.
Proof.
  induction pops as [|[pop_id pop] pops IH]; intros G G' Hloop n;
    cbn [for_each] in Hloop.
  - injection Hloop as <-. change (PyDict.keys []) with (@nil string).
    rewrite elem_of_nil. tauto.
  - destruct (add_population G (pop_id, pop)) as [G1|] eqn:Hstep; [|done].
    rewrite (IH _ _ Hloop). apply add_population_Ok in Hstep as (c & _ & ->).
    unfold add_node; cbn [nodes]. rewrite elem_of_keys_set.
    change (PyDict.keys ((pop_id, pop) :: pops)) with (pop_id :: PyDict.keys pops).
    rewrite elem_of_cons. tauto.
Qed.

Lemma init_state_spec network G nst :
  init_state network = Ok (G, nst) →
  nodes_inv G nst ∧ fresh_types nst ∧ edges G = [] ∧
  ∀ n, PyDict.get n nst =
         if bool_decide (n ∈ PyDict.keys (populations network))
         then Some (TSet ∅) else None.
Proof.
  unfold init_state. intros Hr. apply bind_Ok in Hr as (G0 & Hloop & [= <- <-]).
  assert (population_nodes_ok G0) as (He & Hnd & Hattrs).
  { eapply (for_each_invariant population_nodes_ok); [| |exact Hloop].
    - intros ???? ; apply add_population_nodes_ok.
    - split_and!; [done | apply NoDup_nil_2 | done]. }
  assert (∀ n, PyDict.get n ((λ node, (node, TSet ∅)) <$> PyDict.keys (nodes G0)) =
               if bool_decide (n ∈ PyDict.keys (populations network))
               then Some (TSet ∅) else None) as Hget.
  { intros n. rewrite get_const_dict.
    rewrite (bool_decide_ext _ (n ∈ PyDict.keys (populations network))); [done|].
    rewrite (populations_loop_keys _ _ _ Hloop). simpl.
    change (PyDict.keys []) with (@nil string). rewrite elem_of_nil. tauto. }
  split_and!; [|intros n t|done|done].
  - split_and!.
    + by rewrite keys_const_dict.
    + intros n t. rewrite get_const_dict. case_bool_decide as Hin; [|done].
      intros [= <-]. apply get_is_Some in Hin as [a Ha]. exists a.
      by destruct (Hattrs _ _ Ha).
    + intros n a Ha. rewrite get_const_dict, bool_decide_eq_true_2; [done|].
      apply get_is_Some. by eexists.
  - rewrite Hget. case_bool_decide; [|done]. intros [= <-]. by left.
Qed.

(** *** The input nodes and edges *)

Lemma add_input_Ok network G nst input_id input_info st' :
  add_input network (G, nst) (input_id, input_info) = Ok st' →
  ∃ c, _convert_color "1 1 0" = Ok c ∧ is_Some (input_sources network) ∧
    st' = (_add_input_edge
             (add_node input_id
                [("color", VRgba c); ("shape", VStr (node_shape "input"));
                 ("size", VNum (NInt 2))] G) input_id input_info,
           PyDict.set input_id (TStr "dummy") nst).
Proof.
  unfold add_input. intros Hr. apply bind_Ok in Hr as (c & Hc & Hr).
  destruct (input_sources network); [|done]. injection Hr as <-.
  exists c. eauto.
Qed.

Lemma add_input_inv network st item st' :
  inputs_inv st → add_input network st item = Ok st' → inputs_inv st'.
Proof.
  destruct st as [G nst], item as [input_id input_info].
  intros (Hnodes & Hfresh & Hedges & Hnd) Hr.
  apply add_input_Ok in Hr as (c & _ & _ & ->).
  unfold inputs_inv. cbn [fst snd] in *. split_and!.
  - apply nodes_inv_add_edge. by apply nodes_inv_add_node.
  - intros n t. rewrite get_set. case_decide; [by intros [= <-]; right | apply Hfresh].
  - by apply only_input_edges_add_input_edge.
  - by apply NoDup_edges_add_edge.
Qed.

Lemma inputs_loop_inv network items st st' :
  inputs_inv st → for_each (add_input network) st items = Ok st' → inputs_inv st'.
Proof.
  apply (for_each_invariant inputs_inv). intros s x s' _. apply add_input_inv.
Qed.

Lemma inputs_loop_types network items :
  ∀ st st', for_each (add_input network) st items = Ok st' →
  ∀ n, PyDict.get n st'.2 =
         if bool_decide (n ∈ PyDict.keys items) then Some (TStr "dummy")
         else PyDict.get n st.2.
Proof.
  induction items as [|[input_id input_info] items IH]; intros [G nst] st' Hloop n;
    cbn [for_each] in Hloop.
  - by injection Hloop as <-.
  - destruct (add_input network (G, nst) (input_id, input_info)) as [st1|] eqn:Hstep;
      [|done].
    rewrite (IH _ _ Hloop). apply add_input_Ok in Hstep as (c & _ & _ & ->).
    change (PyDict.keys ((input_id, input_info) :: items))
      with (input_id :: PyDict.keys items).
    simpl. rewrite get_set.
    destruct (decide (n ∈ PyDict.keys items)) as [Hin|Hnin].
    + rewrite !bool_decide_eq_true_2; [done | by apply list_elem_of_further | done].
    + rewrite (bool_decide_eq_false_2 _ Hnin). destruct (decide (n = input_id)) as [->|Hne].
      * rewrite bool_decide_eq_true_2; [done | apply list_elem_of_here].
      * rewrite bool_decide_eq_false_2; [done|]. by intros [?|?]%elem_of_cons.
Qed.

Lemma inputs_loop_edges network items :
  ∀ st st', for_each (add_input network) st items = Ok st' → inputs_inv st →
  ∀ uv, PyDict.get uv (edges st'.1) =
          if bool_decide
               (uv ∈ (λ item : string * Input, (item.1, population item.2)) <$> items)
          then Some input_edge_attrs
          else PyDict.get uv (edges st.1).
Proof.
  induction items as [|[input_id input_info] items IH]; intros [G nst] st' Hloop Hinv uv;
    cbn [for_each] in Hloop.
  - by injection Hloop as <-.
  - destruct (add_input network (G, nst) (input_id, input_info)) as [st1|] eqn:Hstep;
      [|done].
    pose proof (add_input_inv _ _ _ _ Hinv Hstep) as Hinv1.
    rewrite (IH _ _ Hloop Hinv1). apply add_input_Ok in Hstep as (c & _ & _ & ->).
    destruct Hinv as (_ & _ & Hedges & _). rewrite fmap_cons. cbn [fst snd] in *.
    rewrite get_edge_add_input_edge by done.
    set (rest := (λ item : string * Input, (item.1, population item.2)) <$> items).
    destruct (decide (uv ∈ rest)) as [Hin|Hnin].
    + rewrite !bool_decide_eq_true_2; [done | by apply list_elem_of_further | done].
    + rewrite (bool_decide_eq_false_2 _ Hnin).
      destruct (decide (uv = (input_id, population input_info))) as [->|Hne].
      * rewrite bool_decide_eq_true_2; [done | apply list_elem_of_here].
      * rewrite bool_decide_eq_false_2; [done|]. by intros [?|?]%elem_of_cons.
Qed.

(** *** The call of [_update_node_shapes] *)

Lemma set_node_attr_same n key v G a :
  PyDict.get n (nodes G) = Some a → PyDict.get key a = Some v →
  set_node_attr n key v G = Ok G.
Proof.
  intros Ha Hv. unfold set_node_attr, PyDict.getitem. rewrite Ha.
  change (Ok {| nodes := PyDict.set n (PyDict.set key v a) (nodes G);
                edges := edges G |} = Ok G).
  rewrite (set_same key v a Hv), (set_same n a _ Ha). by destruct G.
Qed.

Lemma set_node_attr_edges n key v G G' :
  set_node_attr n key v G = Ok G' → edges G' = edges G.
Proof.
  unfold set_node_attr. intros Hr. apply bind_Ok in Hr as (a & _ & [= <-]). done.
Qed.

(** Where the build calls it, no projection has been seen: every tracked
    set is empty, every node gets the shape it already has. *)
Lemma update_node_shape_fresh G nst n t :
  nodes_inv G nst → fresh_types nst → PyDict.get n nst = Some t →
  update_node_shape G (n, t) = Ok G.
Proof.
  intros (_ & Htracked & _) Hfresh Ht.
  destruct (Htracked _ _ Ht) as (a & Ha & _ & Hshape).
  destruct (Hfresh _ _ Ht) as [-> | ->]; unfold update_node_shape.
  - unfold py_in. rewrite !bool_decide_eq_false_2 by apply not_elem_of_empty.
    simpl. by eapply set_node_attr_same.
  - change (py_in "excitatory" (TStr "dummy")) with false.
    change (py_in "inhibitory" (TStr "dummy")) with false.
    change (py_in "dummy" (TStr "dummy")) with true.
    simpl. by eapply set_node_attr_same.
Qed.

Lemma update_node_shapes_fresh G nst :
  nodes_inv G nst → fresh_types nst → _update_node_shapes G nst = Ok G.
Proof.
  intros Hinv Hfresh. unfold _update_node_shapes.
  assert (∀ items, (∀ n t, (n, t) ∈ items → PyDict.get n nst = Some t) →
                   for_each update_node_shape G items = Ok G) as Hloop.
  { induction items as [|[n t] items IH]; intros Hitems; cbn [for_each]; [done|].
    rewrite (update_node_shape_fresh G nst n t); [|done|done|].
    - apply IH. intros ???. apply Hitems. by apply list_elem_of_further.
    - apply Hitems, list_elem_of_here. }
  apply Hloop. intros n t. apply elem_get. by destruct Hinv.
Qed.

Lemma inputs_phase_spec network st0 st1 :
  inputs_phase network st0 = Ok st1 → inputs_inv st0 →
  inputs_inv st1 ∧
  (∀ n, PyDict.get n st1.2 =
          if bool_decide (n ∈ input_ids network) then Some (TStr "dummy")
          else PyDict.get n st0.2) ∧
  (∀ uv, PyDict.get uv (edges st1.1) =
           if bool_decide (uv ∈ input_pairs network) then Some input_edge_attrs
           else PyDict.get uv (edges st0.1)).
Proof.
  unfold inputs_phase, input_ids, input_pairs. intros Hr Hinv.
  destruct (inputs network) as [[|item items]|].
  - injection Hr as <-. done.
  - apply bind_Ok in Hr as ([G1 nst1] & Hloop & Hr).
    apply bind_Ok in Hr as (G2 & Hupd & [= <-]).
    pose proof (inputs_loop_inv _ _ _ _ Hinv Hloop) as Hinv1.
    pose proof Hinv1 as (Hnodes & Hfresh & Hedges & Hnd); cbn [fst snd] in *.
    rewrite update_node_shapes_fresh in Hupd by done. injection Hupd as <-.
    split_and!; [done | |].
    + apply (inputs_loop_types _ _ _ _ Hloop).
    + apply (inputs_loop_edges _ _ _ _ Hloop Hinv).
  - injection Hr as <-. done.
Qed.

(** *** The projections and the tracked types *)

Lemma add_synapse_type_Ok pre_pop a nst nst' :
  add_synapse_type pre_pop a nst = Ok nst' →
  ∃ s cat, PyDict.get pre_pop nst = Some (TSet s)
    ∧ PyDict.get "synapse_category" a = Some (VStr cat)
    ∧ nst' = PyDict.set pre_pop (TSet ({[cat]} ∪ s)) nst.
Proof.
  unfold add_synapse_type, PyDict.getitem.
  destruct (PyDict.get pre_pop nst) as [[s|?]|]; [|done|done].
  destruct (PyDict.get "synapse_category" a) as [[]|]; try done.
  intros [= <-]. eauto.
Qed.

Lemma add_projection_inv network st proj st' :
  projections_inv network st → _add_projection network st proj = Ok st' →
  projections_inv network st'.
Proof.
  destruct st as [G nst], st' as [G' nst'].
  intros (Hnodes & Htypes & Hwf & Hnd) Hr. unfold projections_inv; cbn [fst snd] in *.
  destruct (add_projection_edges _ _ _ _ _ _ Hr Hwf) as (_ & _ & Hwf' & _).
  pose proof (add_projection_NoDup_edges _ _ _ _ _ _ Hr Hnd) as Hnd'.
  apply add_projection_Ok in Hr as (a & _ & Hadd & ->).
  apply add_synapse_type_Ok in Hadd as (s & cat & Hpre & _ & ->).
  split_and!; [| |done|done].
  - assert (nodes_inv G (PyDict.set (presynaptic proj) (TSet ({[cat]} ∪ s)) nst))
      by by eapply nodes_inv_retrack.
    case_decide; repeat apply nodes_inv_add_edge; done.
  - intros n. specialize (Htypes n). rewrite get_set.
    destruct (decide (n = presynaptic proj)) as [->|Hne]; [|done].
    rewrite Hpre in Htypes. repeat case_bool_decide; [done | by eauto | done].
Qed.

(** ** The built graph *)

Lemma build_unfold network :
  build network = build_prefix network (PyDict.values (projections network)).
Proof. done. Qed.

Lemma build_prefix_app network l1 l2 :
  build_prefix network (l1 ++ l2) =
    build_prefix network l1 ≫= λ st, for_each (_add_projection network) st l2.
Proof.
  unfold build_prefix. destruct (init_state network) as [st0|]; [|done]; simpl.
  destruct (inputs_phase network st0) as [st1|]; [|done]; simpl.
  apply for_each_app.
Qed.

(** What holds after any number of projections: the invariants of the
    loop, and for every ordered pair the edge it holds. *)
Lemma build_prefix_spec network ps G nst :
  build_prefix network ps = Ok (G, nst) →
  projections_inv network (G, nst) ∧
  ∀ uv, match last_writer uv ps with
        | Some p => ∃ a, resolve_edge p network = Ok a
                       ∧ PyDict.get uv (edges G) = Some a
        | None => PyDict.get uv (edges G) =
                    if bool_decide (uv ∈ input_pairs network)
                    then Some input_edge_attrs else None
        end.
Proof.
  unfold build_prefix. intros Hr.
  apply bind_Ok in Hr as ([G0 nst0] & Hinit & Hr).
  apply bind_Ok in Hr as ([G1 nst1] & Hinputs & Hloop).
  apply init_state_spec in Hinit as (Hnodes0 & Hfresh0 & Hedges0 & Htypes0).
  assert (inputs_inv (G0, nst0)) as Hinv0.
  { split_and!; cbn [fst snd]; [done | done | | ].
    - intros uv old. by rewrite Hedges0.
    - rewrite Hedges0. apply NoDup_nil_2. }
  destruct (inputs_phase_spec _ _ _ Hinputs Hinv0)
    as ((Hnodes1 & Hfresh1 & Hedges1 & Hnd1) & Htypes1 & Hget1); cbn [fst snd] in *.
  assert (projections_inv network (G1, nst1)) as Hinv1.
  { split_and!; cbn [fst snd]; [done | | by apply only_input_edges_wf | done].
    intros n. rewrite Htypes1, Htypes0. by repeat case_bool_decide; eauto. }
  split.
  - eapply (for_each_invariant (projections_inv network)); [| exact Hinv1 | exact Hloop].
    intros ???? ; apply add_projection_inv.
  - destruct Hinv1 as (_ & _ & Hwf1 & _); cbn [fst snd] in *.
    destruct (projections_loop_edges _ _ _ _ _ _ Hloop Hwf1) as [_ Hget].
    intros uv. specialize (Hget uv).
    destruct (last_writer uv _); [done|]. by rewrite Hget, Hget1, Hedges0.
Qed.

(** [_create_graph] runs [build] on the first network of the document
    and returns its graph. *)
Lemma create_graph_build network_id network rest :
  _create_graph ((network_id, network) :: rest) =
    build network ≫= λ st, Ok st.1.
Proof. done. Qed.

(** The last projection to write a pair is the one no later projection
    follows on that pair. *)
Lemma last_writer_app uv l1 p l2 :
  uv ∈ edge_pairs p → (∀ q, q ∈ l2 → uv ∉ edge_pairs q) →
  last_writer uv (l1 ++ p :: l2) = Some p.
Proof.
  intros Hp Hl2.
  assert (last_writer uv l2 = None) as Hnone.
  { induction l2 as [|q l2 IH]; [done|]. cbn [last_writer].
    rewrite IH; [|intros ??; apply Hl2; by apply list_elem_of_further].
    rewrite bool_decide_eq_false_2; [done|]. apply Hl2, list_elem_of_here. }
  induction l1 as [|q l1 IH]; cbn [last_writer app].
  - by rewrite Hnone, bool_decide_eq_true_2.
  - by rewrite IH.
Qed.

Lemma last_writer_is_Some uv ps p :
  p ∈ ps → uv ∈ edge_pairs p → is_Some (last_writer uv ps).
Proof.
  intros Hin Hp. induction ps as [|q ps IH]; [by apply elem_of_nil in Hin|].
  cbn [last_writer]. apply elem_of_cons in Hin as [<-|Hin].
  - destruct (last_writer uv ps); [by eauto|]. by rewrite bool_decide_eq_true_2.
  - destruct (IH Hin) as [q' ->]. by eauto.
Qed.

End GraphFacts.

(** * The claims *)

Section Claims.
Context `{Host}.
Import PyDictFacts.

(** ** The node classifier *)

Lemma node_attr_set_node_attr n key v G G' n' key' :
  set_node_attr n key v G = Ok G' →
  node_attr G' n' key' =
    if decide (n' = n ∧ key' = key) then Some v else node_attr G n' key'.
Proof.
  unfold set_node_attr, PyDict.getitem, node_attr.
  destruct (PyDict.get n (nodes G)) as [a|] eqn:Ha; [|done].
  intros [= <-]; cbn [nodes]. rewrite get_set.
  destruct (decide (n' = n)) as [->|Hn]; simpl.
  - rewrite get_set, Ha; simpl. destruct (decide (key' = key)) as [->|Hk].
    + rewrite decide_True; done.
    + rewrite decide_False; [done | by intros [_ ?]].
  - rewrite decide_False; [done | by intros [? _]].
Qed.

Lemma node_attr_set_eq n key v G G' :
  set_node_attr n key v G = Ok G' → node_attr G' n key = Some v.
Proof.
  intros Hr. rewrite (node_attr_set_node_attr _ _ _ _ _ _ _ Hr).
  by rewrite decide_True.
Qed.

Lemma node_attr_set_ne n key v G G' key' :
  set_node_attr n key v G = Ok G' → key' ≠ key →
  node_attr G' n key' = node_attr G n key'.
Proof.
  intros Hr Hne. rewrite (node_attr_set_node_attr _ _ _ _ _ _ _ Hr).
  rewrite decide_False; [done | by intros [_ ?]].
Qed.

Lemma set_node_attr_Ok n key v G a :
  PyDict.get n (nodes G) = Some a → ∃ G', set_node_attr n key v G = Ok G'
    ∧ ∃ a', PyDict.get n (nodes G') = Some a'.
Proof.
  intros Ha. unfold set_node_attr, PyDict.getitem. rewrite Ha. eexists. split; [done|].
  cbn [nodes]. rewrite get_set_eq. by eauto.
Qed.

(** A branch of the classifier that sets the shape only. *)
Lemma classify_shape_only n shape G a :
  PyDict.get n (nodes G) = Some a →
  ∃ G', set_node_attr n "shape" (VStr shape) G = Ok G' ∧
    node_attr G' n "shape" = Some (VStr shape) ∧
    node_attr G' n "color" = node_attr G n "color".
Proof.
  intros Ha. destruct (set_node_attr_Ok n "shape" (VStr shape) G a Ha) as (G' & HG' & _).
  exists G'. split_and!; [done | by eapply node_attr_set_eq |].
  by eapply node_attr_set_ne.
Qed.

(** A branch of the classifier that sets the shape, then the colour. *)
Lemma classify_shape_color n shape col G a :
  PyDict.get n (nodes G) = Some a →
  ∃ G', (G1 ← set_node_attr n "shape" (VStr shape) G;
         set_node_attr n "color" (VStr col) G1) = Ok G' ∧
    node_attr G' n "shape" = Some (VStr shape) ∧
    node_attr G' n "color" = Some (VStr col).
Proof.
  intros Ha.
  destruct (set_node_attr_Ok n "shape" (VStr shape) G a Ha) as (G1 & HG1 & a1 & Ha1).
  destruct (set_node_attr_Ok n "color" (VStr col) G1 a1 Ha1) as (G' & HG' & _).
  exists G'. rewrite HG1. split_and!; [done | | by eapply node_attr_set_eq].
  rewrite (node_attr_set_ne _ _ _ _ _ "shape" HG') by done.
  by eapply node_attr_set_eq.
Qed.

(** C4. The node classifier ([_update_node_shapes], one node at a time)
    follows a fixed precedence, the first match winning: excitatory and
    inhibitory both present give the generic shape and leave the colour;
    excitatory without inhibitory gives the excitatory shape and the
    colour blue; inhibitory without excitatory gives the inhibitory shape
    and the colour red; otherwise dummy gives the input shape and leaves
    the colour; otherwise (the empty set among others) the shape is
    generic and the colour is left. *)
Theorem node_classifier_precedence G n a t :
  PyDict.get n (nodes G) = Some a →
  ∃ G', update_node_shape G (n, t) = Ok G' ∧
    (py_in "excitatory" t = true → py_in "inhibitory" t = true →
       node_attr G' n "shape" = Some (VStr (node_shape "generic"))
       ∧ node_attr G' n "color" = node_attr G n "color") ∧
    (py_in "excitatory" t = true → py_in "inhibitory" t = false →
       node_attr G' n "shape" = Some (VStr (node_shape "excitatory"))
       ∧ node_attr G' n "color" = Some (VStr "blue")) ∧
    (py_in "excitatory" t = false → py_in "inhibitory" t = true →
       node_attr G' n "shape" = Some (VStr (node_shape "inhibitory"))
       ∧ node_attr G' n "color" = Some (VStr "red")) ∧
    (py_in "excitatory" t = false → py_in "inhibitory" t = false →
     py_in "dummy" t = true →
       node_attr G' n "shape" = Some (VStr (node_shape "input"))
       ∧ node_attr G' n "color" = node_attr G n "color") ∧
    (py_in "excitatory" t = false → py_in "inhibitory" t = false →
     py_in "dummy" t = false →
       node_attr G' n "shape" = Some (VStr (node_shape "generic"))
       ∧ node_attr G' n "color" = node_attr G n "color").
Proof.
  intros Ha. unfold update_node_shape.
  destruct (py_in "excitatory" t), (py_in "inhibitory" t), (py_in "dummy" t);
    cbn [andb];
    first
      [ destruct (classify_shape_color n (node_shape "excitatory") "blue" G a Ha)
          as (G' & HG' & Hshape & Hcolor); exists G'; split; [exact HG'|]
      | destruct (classify_shape_color n (node_shape "inhibitory") "red" G a Ha)
          as (G' & HG' & Hshape & Hcolor); exists G'; split; [exact HG'|]
      | destruct (classify_shape_only n (node_shape "generic") G a Ha)
          as (G' & HG' & Hshape & Hcolor); exists G'; split; [exact HG'|]
      | destruct (classify_shape_only n (node_shape "input") G a Ha)
          as (G' & HG' & Hshape & Hcolor); exists G'; split; [exact HG'|] ];
    split_and!; intros; done.
Qed.

(** ** The edge attribute resolver *)


(** C9. The info label is ["Weight: {w}, Delay: {d}"] when weight and
    delay are both present, ["Weight: {w}"] with the weight only,
    ["Delay: {d}"] with the delay only, and empty with neither; a weight
    of 5 without delay gives ["Weight: 5"]. *)
Theorem format_edge_info_cases proj :
  (∀ w d, weight proj = Some w → delay proj = Some d →
     _format_edge_info proj =
       "Weight: " +:+ num_str w +:+ ", Delay: " +:+ num_str d) ∧
  (∀ w, weight proj = Some w → delay proj = None →
     _format_edge_info proj = "Weight: " +:+ num_str w) ∧
  (∀ d, weight proj = None → delay proj = Some d →
     _format_edge_info proj = "Delay: " +:+ num_str d) ∧
  (weight proj = None → delay proj = None → _format_edge_info proj = "") ∧
  (weight proj = Some (NInt 5) → delay proj = None →
     _format_edge_info proj = "Weight: 5").
Proof.
  unfold _format_edge_info. split_and!.
  - by intros w d -> ->.
  - by intros w -> ->.
  - by intros d -> ->.
  - by intros -> ->.
  - intros -> ->. by vm_compute.
Qed.

(** C6. A projection without a [synapse] key takes the default kind
    ['generic'] and then fails to resolve: every branch of the resolver
    reads [proj['synapse']], which raises [KeyError]. *)
Theorem resolve_edge_missing_synapse proj network :
  synapse proj = None →
  synapse_type_of proj = "generic" ∧
  resolve_edge proj network = Raise (KeyError "synapse").
Proof.
  intros Hsyn. unfold resolve_edge, _get_edge_attributes, synapse_type_of, proj_synapse.
  by rewrite Hsyn.
Qed.

(** ** The accumulated categories *)

Lemma py_in_add_other x cat s :
  x ≠ cat → py_in x (TSet ({[cat]} ∪ s)) = py_in x (TSet s).
Proof.
  intros Hne. unfold py_in. apply bool_decide_ext.
  rewrite elem_of_union, elem_of_singleton. tauto.
Qed.

(** C8, as the code has it. Processing a projection whose kind is neither
    [ampaSyn] nor [gabaSyn] adds the category ['generic'] to the set of
    the presynaptic node; the category has no effect on the classifier,
    which gives the same result with and without it. *)
Theorem generic_category_is_inert :
  (∀ network G nst proj G' nst' kind,
     _add_projection network (G, nst) proj = Ok (G', nst') →
     synapse proj = Some kind → kind ≠ "ampaSyn" → kind ≠ "gabaSyn" →
     ∃ s, PyDict.get (presynaptic proj) nst = Some (TSet s)
        ∧ PyDict.get (presynaptic proj) nst' = Some (TSet ({["generic"]} ∪ s))) ∧
  (∀ G n s,
     update_node_shape G (n, TSet ({["generic"]} ∪ s)) =
     update_node_shape G (n, TSet s)).
Proof.
  split.
  - intros network G nst proj G' nst' kind Hr Hkind Hampa Hgaba.
    apply add_projection_Ok in Hr as (a & Ha & Hadd & _).
    apply add_synapse_type_Ok in Hadd as (s & cat & Hpre & Hcat & ->).
    exists s. split; [done|]. rewrite get_set_eq.
    unfold resolve_edge, _get_edge_attributes, synapse_type_of in Ha.
    rewrite Hkind in Ha; simpl in Ha. rewrite !decide_False in Ha by done.
    repeat (apply bind_Ok in Ha as (? & _ & Ha)). injection Ha as <-.
    by injection Hcat as <-.
  - intros G n s. unfold update_node_shape. by rewrite !py_in_add_other.
Qed.

(** ** The edges of the built graph *)

Lemma last_writer_Some uv ps p :
  last_writer uv ps = Some p → p ∈ ps ∧ uv ∈ edge_pairs p.
Proof.
  induction ps as [|q ps IH]; [done|]. cbn [last_writer].
  destruct (last_writer uv ps) as [q'|].
  - intros [= ->]. destruct IH as [Hin Hp]; [done|].
    split; [by apply list_elem_of_further | done].
  - case_bool_decide as Hq; [|done]. intros [= ->].
    split; [apply list_elem_of_here | done].
Qed.

Lemma last_writer_None uv ps p :
  last_writer uv ps = None → p ∈ ps → uv ∉ edge_pairs p.
Proof.
  intros Hnone Hin Hp. destruct (last_writer_is_Some uv ps p Hin Hp) as [q Hq].
  congruence.
Qed.

(** The entries of a duplicate-free list that fall in a duplicate-free
    list of entries it contains are as many as those. *)
Lemma length_filter_sublist {A} `{EqDecision A} (xs l : list A) :
  NoDup l → NoDup xs → (∀ x, x ∈ xs → x ∈ l) →
  length (filter (λ y, y ∈ xs) l) = length xs.
Proof.
  intros Hl Hxs Hsub. apply Permutation_length, NoDup_Permutation.
  - by apply NoDup_filter.
  - done.
  - intros x. rewrite list_elem_of_filter. split; [by intros [? _] | by auto].
Qed.

Lemma edge_present network G nst p uv :
  build network = Ok (G, nst) → p ∈ PyDict.values (projections network) →
  uv ∈ edge_pairs p → uv ∈ PyDict.keys (edges G).
Proof.
  intros Hb Hin Hp. apply build_prefix_spec in Hb as [_ Hget].
  specialize (Hget uv). destruct (last_writer_is_Some uv _ p Hin Hp) as [q Hq].
  rewrite Hq in Hget. destruct Hget as (a & _ & Ha).
  apply get_is_Some. by eexists.
Qed.

(** C10. The built graph holds at most one edge per ordered pair of node
    ids. A bidirectional projection from a node to itself leaves a single
    self-loop. Of the projections that write the same ordered pair the
    one processed last decides the edge: its attributes replace those of
    the earlier ones and no second edge is added. *)
Theorem one_edge_per_ordered_pair network G nst :
  build network = Ok (G, nst) →
  NoDup (PyDict.keys (edges G)) ∧
  (∀ p, p ∈ PyDict.values (projections network) →
        directionality p = Some "bidirectional" →
        presynaptic p = postsynaptic p →
        filter (λ uv, uv ∈ edge_pairs p) (PyDict.keys (edges G)) =
          [(presynaptic p, presynaptic p)]) ∧
  (∀ uv l1 p l2,
        PyDict.values (projections network) = l1 ++ p :: l2 →
        uv ∈ edge_pairs p → (∀ q, q ∈ l2 → uv ∉ edge_pairs q) →
        ∃ a, resolve_edge p network = Ok a ∧ PyDict.get uv (edges G) = Some a).
Proof.
  intros Hb. pose proof Hb as Hb'.
  apply build_prefix_spec in Hb' as [(_ & _ & _ & Hnd) Hget]; cbn [fst snd] in *.
  split_and!; [done | |].
  - intros p Hin Hbi Hself.
    assert ((presynaptic p, presynaptic p) ∈ PyDict.keys (edges G)) as Hpresent.
    { eapply edge_present; [done..|]. unfold edge_pairs.
      rewrite decide_True by done. rewrite <- Hself. apply list_elem_of_here. }
    assert (∀ uv, uv ∈ edge_pairs p ↔ uv = (presynaptic p, presynaptic p)) as Hpairs.
    { intros uv. rewrite elem_of_edge_pairs, <- Hself. tauto. }
    revert Hnd Hpresent. generalize (PyDict.keys (edges G)) as l.
    induction l as [|uv l IH]; intros Hnd Hpresent; [by apply elem_of_nil in Hpresent|].
    apply NoDup_cons in Hnd as [Hnotin Hnd].
    apply elem_of_cons in Hpresent as [<-|Hpresent].
    + rewrite filter_cons_True by by apply Hpairs. f_equal.
      clear IH Hnd. induction l as [|uv l IH]; [done|].
      apply not_elem_of_cons in Hnotin as [Hne Hnotin].
      rewrite filter_cons_False; [by apply IH|].
      rewrite Hpairs. congruence.
    + rewrite filter_cons_False; [by apply IH|].
      rewrite Hpairs. intros ->. done.
  - intros uv l1 p l2 Hps Hp Hl2. specialize (Hget uv).
    by rewrite Hps, last_writer_app in Hget.
Qed.

(** C2, as the code has it. A bidirectional projection between two
    different nodes that no later projection overwrites leaves exactly
    two edges between the pair, one in each direction, and both hold the
    same attribute dictionary, resolved once from the projection. *)
Theorem bidirectional_projection_edges network G nst l1 p l2 :
  build network = Ok (G, nst) →
  PyDict.values (projections network) = l1 ++ p :: l2 →
  directionality p = Some "bidirectional" →
  presynaptic p ≠ postsynaptic p →
  (∀ q uv, q ∈ l2 → uv ∈ edge_pairs p → uv ∉ edge_pairs q) →
  ∃ a, resolve_edge p network = Ok a ∧
    PyDict.get (presynaptic p, postsynaptic p) (edges G) = Some a ∧
    PyDict.get (postsynaptic p, presynaptic p) (edges G) = Some a ∧
    length (filter (λ uv, uv ∈ edge_pairs p) (PyDict.keys (edges G))) = 2.
Proof.
  intros Hb Hps Hbi Hne Hl2. pose proof Hb as Hb'.
  apply build_prefix_spec in Hb' as [(_ & _ & _ & Hnd) Hget]; cbn [fst snd] in *.
  assert (edge_pairs p = [(presynaptic p, postsynaptic p);
                          (postsynaptic p, presynaptic p)]) as Hpairs
    by (unfold edge_pairs; by rewrite decide_True).
  assert (∀ uv, uv ∈ edge_pairs p →
            last_writer uv (PyDict.values (projections network)) = Some p) as Hlast.
  { intros uv Huv. rewrite Hps. apply last_writer_app; [done|].
    intros q Hq. by apply Hl2. }
  pose proof (Hget (presynaptic p, postsynaptic p)) as H1.
  pose proof (Hget (postsynaptic p, presynaptic p)) as H2.
  rewrite Hlast in H1 by (apply elem_of_edge_pairs; by left).
  rewrite Hlast in H2 by (apply elem_of_edge_pairs; by right).
  destruct H1 as (a & Ha & H1), H2 as (a' & Ha' & H2).
  assert (a' = a) as -> by congruence.
  exists a. split_and!; [done..|].
  rewrite (length_filter_sublist (edge_pairs p)); [by rewrite Hpairs | done | |].
  - rewrite Hpairs. apply NoDup_cons. split; [|apply NoDup_singleton].
    intros Hin%list_elem_of_singleton. congruence.
  - intros uv Huv. eapply edge_present; [done | | done].
    rewrite Hps. apply elem_of_app. right. apply list_elem_of_here.
Qed.

(** C7, as the code has it. In the built graph every node the model
    declares, as a population or as an input, carries [color], [shape]
    and [size]. An edge written by a projection carries [synapse],
    [style], [arrowstyle], [color], [info] and [synapse_category]; any
    other edge is an input edge and carries only [synapse], [style],
    [arrowstyle] and [color]. *)
Theorem built_graph_attributes network G nst :
  build network = Ok (G, nst) →
  (∀ n, n ∈ declared_nodes network →
     ∃ a, PyDict.get n (nodes G) = Some a ∧ PyDict.keys a = node_keys) ∧
  (∀ uv a, PyDict.get uv (edges G) = Some a →
     ((∃ p, p ∈ PyDict.values (projections network) ∧ uv ∈ edge_pairs p)
      ∧ PyDict.keys a = edge_keys) ∨
     ((∀ p, p ∈ PyDict.values (projections network) → uv ∉ edge_pairs p)
      ∧ uv ∈ input_pairs network ∧ PyDict.keys a = input_edge_keys)).
Proof.
  intros Hb.
  apply build_prefix_spec in Hb as [((_ & Htracked & _) & Htypes & _ & _) Hget];
    cbn [fst snd] in *.
  split.
  - intros n Hn. specialize (Htypes n).
    assert (∃ t, PyDict.get n nst = Some t) as [t Ht].
    { unfold declared_nodes in Hn. apply elem_of_app in Hn.
      repeat case_bool_decide; [by eauto | | tauto].
      destruct Htypes as [s Hs]. by eauto. }
    destruct (Htracked _ _ Ht) as (a & Ha & Hk & _). by eauto.
  - intros uv a Ha. specialize (Hget uv).
    destruct (last_writer uv _) as [p|] eqn:Hlast.
    + left. destruct Hget as (a' & Hres & Ha'). split.
      * exists p. by apply last_writer_Some.
      * assert (a' = a) as -> by congruence. by eapply resolve_edge_keys.
    + right. rewrite Ha in Hget. case_bool_decide; [|done].
      injection Hget as ->. split_and!; [|done|done].
      intros p Hp. by eapply last_writer_None.
Qed.

(** ** Unknown population ids *)

Lemma add_projection_unknown_pre network st p :
  projections_inv network st →
  presynaptic p ∉ PyDict.keys (populations network) →
  raises (_add_projection network st p).
Proof.
  destruct st as [G nst]. intros (_ & Htypes & _) Hpre. unfold _add_projection.
  destruct (resolve_edge p network) as [a|e]; [|by exists e]; cbn [mbind result_bind].
  specialize (Htypes (presynaptic p)); cbn [snd] in Htypes.
  unfold add_synapse_type, PyDict.getitem.
  case_bool_decide; [|rewrite bool_decide_eq_false_2 in Htypes by done];
    rewrite Htypes; by eexists.
Qed.

Lemma add_projection_unknown_pre_KeyError network st p :
  projections_inv network st →
  presynaptic p ∉ PyDict.keys (populations network) →
  presynaptic p ∉ input_ids network →
  is_Some (synapse p) →
  _add_projection network st p = Raise (KeyError (presynaptic p)).
Proof.
  destruct st as [G nst]. intros (_ & Htypes & _) Hpre Hin [kind Hkind].
  specialize (Htypes (presynaptic p)); cbn [snd] in Htypes.
  rewrite !bool_decide_eq_false_2 in Htypes by done.
  apply get_None in Hpre.
  unfold _add_projection, resolve_edge, _get_edge_attributes, synapse_type_of,
    proj_synapse, add_synapse_type, PyDict.getitem.
  rewrite Hkind; simpl. repeat case_decide; simpl; by rewrite ?Htypes, ?Hpre.
Qed.

Lemma add_projection_succeeds network st p :
  projections_inv network st →
  (∀ item, item ∈ populations network → is_Some (to_rgba_of (color item.2))) →
  is_Some (synapse p) →
  presynaptic p ∈ PyDict.keys (populations network) →
  presynaptic p ∉ input_ids network →
  ∃ st', _add_projection network st p = Ok st'.
Proof.
  destruct st as [G nst]. intros (_ & Htypes & _) Hcolors [kind Hkind] Hpre Hin.
  specialize (Htypes (presynaptic p)); cbn [snd] in Htypes.
  rewrite bool_decide_eq_false_2, bool_decide_eq_true_2 in Htypes by done.
  destruct Htypes as [s Hs].
  apply get_is_Some in Hpre as [pop Hpop].
  destruct (Hcolors (presynaptic p, pop)) as [c Hc]; [by apply get_Some_elem|].
  unfold _add_projection, resolve_edge, _get_edge_attributes, synapse_type_of,
    proj_synapse, add_synapse_type, PyDict.getitem, _convert_color.
  rewrite Hkind; simpl in *.
  repeat case_decide; simpl; rewrite ?Hpop; simpl; rewrite ?Hc; simpl;
    rewrite Hs; simpl; by eauto.
Qed.

Lemma populations_loop_succeeds pops :
  (∀ item, item ∈ pops → is_Some (to_rgba_of (color item.2))) →
  ∀ G, ∃ G', for_each add_population G pops = Ok G'.
Proof.
  intros Hcolors G. apply (for_each_progress (λ _, True)); [|done|done].
  intros G0 [pop_id pop] Hin _. destruct (Hcolors _ Hin) as [c Hc].
  unfold add_population, _convert_color. simpl in Hc. rewrite Hc. by eauto.
Qed.

Lemma inputs_loop_succeeds network items st :
  is_Some (to_rgba_of "1 1 0") → is_Some (input_sources network) →
  ∃ st', for_each (add_input network) st items = Ok st'.
Proof.
  intros [c Hc] [srcs Hsrcs]. apply (for_each_progress (λ _, True)); [|done|done].
  intros [G nst] [input_id input_info] _ _.
  unfold add_input, _convert_color. rewrite Hc, Hsrcs. by eauto.
Qed.

(** C3, as the code has it. A projection whose presynaptic id names no
    population makes the build fail, with [KeyError] on that id when the
    build reaches the projection, the projection has a [synapse] key and
    the id names no input node either. A postsynaptic id or an input
    target that names no population never fails the build: it succeeds
    whenever the colours convert, [input_sources] is present when inputs
    are, and every projection has a [synapse] key and a presynaptic id
    that names a population and no input node. *)
Theorem unknown_population_reference network :
  (∀ p, p ∈ PyDict.values (projections network) →
        presynaptic p ∉ PyDict.keys (populations network) →
        raises (build network)) ∧
  (∀ l1 p l2 st,
        PyDict.values (projections network) = l1 ++ p :: l2 →
        build_prefix network l1 = Ok st →
        presynaptic p ∉ PyDict.keys (populations network) →
        presynaptic p ∉ input_ids network →
        is_Some (synapse p) →
        build network = Raise (KeyError (presynaptic p))) ∧
  ((∀ item, item ∈ populations network → is_Some (to_rgba_of (color item.2))) →
   (∀ item items, inputs network = Some (item :: items) →
        is_Some (to_rgba_of "1 1 0") ∧ is_Some (input_sources network)) →
   (∀ p, p ∈ PyDict.values (projections network) →
        is_Some (synapse p)
        ∧ presynaptic p ∈ PyDict.keys (populations network)
        ∧ presynaptic p ∉ input_ids network) →
   ∃ st, build network = Ok st).
Proof.
  split_and!.
  - intros p Hin Hpre. rewrite build_unfold.
    rewrite <- (app_nil_l (PyDict.values _)), build_prefix_app.
    destruct (build_prefix network []) as [[G1 nst1]|e] eqn:Hstart; [|by exists e].
    apply build_prefix_spec in Hstart as [Hinv _]. cbn [mbind result_bind].
    apply (for_each_raises (projections_inv network) _ _ p); [done | | | done].
    + intros ???; apply add_projection_inv.
    + intros st Hst. by apply add_projection_unknown_pre.
  - intros l1 p l2 [G1 nst1] Hps Hstart Hpre Hin Hsyn.
    rewrite build_unfold, Hps, build_prefix_app, Hstart. cbn [mbind result_bind for_each].
    apply build_prefix_spec in Hstart as [Hinv _].
    by rewrite add_projection_unknown_pre_KeyError.
  - intros Hcolors Hinputs Hprojs. rewrite build_unfold.
    rewrite <- (app_nil_l (PyDict.values _)), build_prefix_app.
    assert (∃ st1, build_prefix network [] = Ok st1) as [[G1 nst1] Hstart].
    { unfold build_prefix, init_state.
      destruct (populations_loop_succeeds _ Hcolors empty_graph) as [G0 HG0].
      rewrite HG0. cbn [mbind result_bind].
      set (nst0 := (λ node, (node, TSet ∅)) <$> PyDict.keys (nodes G0)).
      assert (init_state network = Ok (G0, nst0)) as Hinit
        by (unfold init_state; by rewrite HG0).
      apply init_state_spec in Hinit as (Hnodes0 & Hfresh0 & Hedges0 & _).
      assert (inputs_inv (G0, nst0)) as Hinv0.
      { split_and!; cbn [fst snd]; [done | done | | ].
        - intros uv old. by rewrite Hedges0.
        - rewrite Hedges0. apply NoDup_nil_2. }
      unfold inputs_phase. destruct (inputs network) as [[|item items]|] eqn:Hi;
        [by eauto | | by eauto].
      destruct (Hinputs _ _ eq_refl) as [Hyellow Hsrcs].
      destruct (inputs_loop_succeeds network (item :: items) (G0, nst0) Hyellow Hsrcs)
        as [[G1 nst1] Hloop].
      rewrite Hloop. cbn [mbind result_bind].
      destruct (inputs_loop_inv _ _ _ _ Hinv0 Hloop) as (Hnodes1 & Hfresh1 & _).
      cbn [fst snd] in *. rewrite update_node_shapes_fresh by done. by eauto. }
    rewrite Hstart. cbn [mbind result_bind].
    apply build_prefix_spec in Hstart as [Hinv _].
    apply (for_each_progress (projections_inv network)); [| |done].
    + intros st p Hp Hst. destruct (Hprojs p Hp) as (Hsyn & Hpre & Hin).
      by apply add_projection_succeeds.
    + intros ???; apply add_projection_inv.
Qed.

(** ** The final shape of a population node *)

(** C1, on the code. [_update_node_shapes] runs before the projections
    are processed (and only when the model has inputs), so the build ends
    with every population node that is not also an input node in the
    generic shape, whatever its outgoing projections put in its set. *)
Theorem population_shape_stays_generic network G nst n :
  build network = Ok (G, nst) →
  n ∈ PyDict.keys (populations network) →
  n ∉ input_ids network →
  node_attr G n "shape" = Some (VStr (node_shape "generic")).
Proof.
  intros Hb Hpop Hin.
  apply build_prefix_spec in Hb as [((_ & Htracked & _) & Htypes & _ & _) _];
    cbn [fst snd] in *.
  specialize (Htypes n).
  rewrite bool_decide_eq_false_2, bool_decide_eq_true_2 in Htypes by done.
  destruct Htypes as [s Hs]. destruct (Htracked _ _ Hs) as (a & Ha & _ & Hshape).
  unfold node_attr. by rewrite Ha.
Qed.

End Claims.

(** * Further properties of the code *)

(** In a loop that succeeded, every iteration succeeded, from a state
    that satisfies what the iterations keep. *)
Lemma for_each_Ok_elem {S X} (I : S → Prop) (body : S → X → result S) xs :
  (∀ s x s', I s → body s x = Ok s' → I s') →
  ∀ s s', I s → for_each body s xs = Ok s' →
  ∀ x, x ∈ xs → ∃ s1 s2, I s1 ∧ body s1 x = Ok s2.
Proof.
  intros Hstep. induction xs as [|x0 xs IH]; intros s s' Hs Hloop x Hx.
  - by apply elem_of_nil in Hx.
  - cbn [for_each] in Hloop. destruct (body s x0) as [s1|] eqn:Hb; [|done].
    apply elem_of_cons in Hx as [->|Hx]; [by eauto|].
    eapply IH; [|exact Hloop|exact Hx]. by eapply Hstep.
Qed.

Section Further.
Context `{Host}.
Import PyDictFacts.

(** ** [_update_node_shapes] on any graph *)

Lemma set_node_attr_inv n key v G G' :
  set_node_attr n key v G = Ok G' →
  ∃ a, PyDict.get n (nodes G) = Some a ∧
    G' = {| nodes := PyDict.set n (PyDict.set key v a) (nodes G);
            edges := edges G |}.
Proof.
  unfold set_node_attr, PyDict.getitem.
  destruct (PyDict.get n (nodes G)) as [a|]; [|done]. intros [= <-]. by eauto.
Qed.

Lemma shape_update_refl G : shape_update G G.
Proof. by split_and!. Qed.

Lemma shape_update_trans G1 G2 G3 :
  shape_update G1 G2 → shape_update G2 G3 → shape_update G1 G3.
Proof.
  intros (He1 & Hk1 & Ha1) (He2 & Hk2 & Ha2). split_and!; [congruence..|].
  intros n key ??. by rewrite Ha2, Ha1.
Qed.

Lemma set_node_attr_shape_update n key v G G' :
  key = "shape" ∨ key = "color" → set_node_attr n key v G = Ok G' →
  shape_update G G' ∧ is_Some (PyDict.get n (nodes G)) ∧
  ∀ n', n' ≠ n → PyDict.get n' (nodes G') = PyDict.get n' (nodes G).
Proof.
  intros Hkey Hr.
  pose proof (λ n' key', node_attr_set_node_attr _ _ _ _ _ n' key' Hr) as Hattr.
  apply set_node_attr_inv in Hr as (a & Ha & ->). split_and!.
  - split_and!; [done | by apply keys_set_present |].
    intros n' key' Hs Hc. rewrite Hattr, decide_False; [done|].
    intros [_ ->]. by destruct Hkey.
  - by eauto.
  - intros n' Hne. cbn [nodes]. by rewrite get_set_ne.
Qed.

Lemma update_node_shape_inv G n t G' :
  update_node_shape G (n, t) = Ok G' →
  shape_update G G' ∧ is_Some (PyDict.get n (nodes G)) ∧
  ∀ n', n' ≠ n → PyDict.get n' (nodes G') = PyDict.get n' (nodes G).
Proof.
  unfold update_node_shape.
  destruct (py_in "excitatory" t), (py_in "inhibitory" t), (py_in "dummy" t);
    cbn [andb]; intros Hr;
    first
      [ by apply set_node_attr_shape_update in Hr; [|by left]
      | apply bind_Ok in Hr as (G1 & H1 & H2);
        apply set_node_attr_shape_update in H1 as (Hu1 & Hn1 & Ho1); [|by left];
        apply set_node_attr_shape_update in H2 as (Hu2 & Hn2 & Ho2); [|by right];
        split_and!; [by eapply shape_update_trans | done |];
        intros n' Hne; by rewrite Ho2, Ho1 ].
Qed.

Lemma update_node_shape_Ok G n t :
  is_Some (PyDict.get n (nodes G)) → ∃ G', update_node_shape G (n, t) = Ok G'.
Proof.
  intros [a Ha]. unfold update_node_shape.
  destruct (py_in "excitatory" t), (py_in "inhibitory" t), (py_in "dummy" t);
    cbn [andb];
    first
      [ destruct (classify_shape_only n (node_shape "generic") G a Ha) as (G' & HG' & _);
        by exists G'
      | destruct (classify_shape_only n (node_shape "input") G a Ha) as (G' & HG' & _);
        by exists G'
      | destruct (classify_shape_color n (node_shape "excitatory") "blue" G a Ha)
          as (G' & HG' & _); by exists G'
      | destruct (classify_shape_color n (node_shape "inhibitory") "red" G a Ha)
          as (G' & HG' & _); by exists G' ].
Qed.

Lemma update_node_shapes_inv items :
  ∀ G G', for_each update_node_shape G items = Ok G' →
  shape_update G G' ∧
  ∀ n, n ∉ PyDict.keys items → PyDict.get n (nodes G') = PyDict.get n (nodes G).
Proof.
  induction items as [|[n t] items IH]; intros G G' Hloop; cbn [for_each] in Hloop.
  - injection Hloop as <-. split; [apply shape_update_refl | done].
  - destruct (update_node_shape G (n, t)) as [G1|] eqn:Hstep; [|done].
    apply update_node_shape_inv in Hstep as (Hu1 & _ & Ho1).
    destruct (IH _ _ Hloop) as [Hu Ho]. split; [by eapply shape_update_trans|].
    intros n' Hn'. change (PyDict.keys ((n, t) :: items)) with (n :: PyDict.keys items) in Hn'.
    apply not_elem_of_cons in Hn' as [Hne Hn']. by rewrite Ho, Ho1.
Qed.

(** X1. [_update_node_shapes] changes nothing of a graph but the [shape]
    and [color] attributes of the nodes it is given: the edges, the nodes
    and their order, every other attribute and every other node stay. It
    returns exactly when every node it is given is in the graph (and
    raises [KeyError] otherwise). *)
Theorem update_node_shapes_frame G nst :
  (∀ G', _update_node_shapes G nst = Ok G' →
     shape_update G G' ∧
     ∀ n, n ∉ PyDict.keys nst → PyDict.get n (nodes G') = PyDict.get n (nodes G)) ∧
  ((∃ G', _update_node_shapes G nst = Ok G') ↔
     ∀ n, n ∈ PyDict.keys nst → n ∈ PyDict.keys (nodes G)).
Proof.
  unfold _update_node_shapes. split; [intros G'; apply update_node_shapes_inv|].
  set (I := λ s : DiGraph, PyDict.keys (nodes s) = PyDict.keys (nodes G)).
  assert (∀ s x s', I s → update_node_shape s x = Ok s' → I s') as Hkeep.
  { intros s [n t] s' Hs Hr. apply update_node_shape_inv in Hr as ((_ & Hk & _) & _).
    unfold I in *. congruence. }
  split.
  - intros [G' Hloop] n Hn. apply list_elem_of_fmap in Hn as ([n' t] & -> & Hin).
    destruct (for_each_Ok_elem I _ _ Hkeep G G' eq_refl Hloop _ Hin)
      as (s1 & s2 & Hs1 & Hr).
    apply update_node_shape_inv in Hr as (_ & Hsome & _).
    rewrite <- Hs1. by apply get_is_Some.
  - intros Hall. apply (for_each_progress I); [|done|done].
    intros s [n t] Hin Hs. apply update_node_shape_Ok, get_is_Some.
    rewrite Hs. apply Hall. apply list_elem_of_fmap. by exists (n, t).
Qed.

(** ** The state the projections start from *)

Lemma build_prefix_nil network st1 :
  build_prefix network [] = Ok st1 ↔
  ∃ st0, init_state network = Ok st0 ∧ inputs_phase network st0 = Ok st1.
Proof.
  unfold build_prefix. split.
  - intros Hr. apply bind_Ok in Hr as (st0 & H0 & Hr).
    apply bind_Ok in Hr as (st1' & H1 & [= <-]). by eauto.
  - intros (st0 & -> & H1). cbn [mbind result_bind]. by rewrite H1.
Qed.

Lemma build_from_start network ps :
  build_prefix network ps =
    build_prefix network [] ≫= λ st1, for_each (_add_projection network) st1 ps.
Proof. by rewrite <- (app_nil_l ps) at 1; rewrite build_prefix_app. Qed.

Lemma init_state_inputs_inv network st0 :
  init_state network = Ok st0 → inputs_inv st0.
Proof.
  destruct st0 as [G0 nst0]. intros Hinit.
  apply init_state_spec in Hinit as (Hnodes0 & Hfresh0 & Hedges0 & _).
  split_and!; cbn [fst snd]; [done | done | | ].
  - intros uv old. by rewrite Hedges0.
  - rewrite Hedges0. apply NoDup_nil_2.
Qed.

(** The inputs block of [_create_graph] amounts to its loop. *)
Lemma inputs_phase_loop network st0 :
  init_state network = Ok st0 →
  inputs_phase network st0 =
    for_each (add_input network) st0 (default [] (inputs network)).
Proof.
  intros Hinit. unfold inputs_phase.
  destruct (inputs network) as [[|item items]|]; [done| |done]. cbn [default].
  destruct (for_each (add_input network) st0 (item :: items)) as [[G1 nst1]|] eqn:Hloop;
    [|done]. cbn [mbind result_bind].
  destruct (inputs_loop_inv _ _ _ _ (init_state_inputs_inv _ _ Hinit) Hloop)
    as (Hnodes & Hfresh & _). cbn [fst snd] in *.
  by rewrite update_node_shapes_fresh.
Qed.

(** X2. The one call of [_update_node_shapes] that [_create_graph] makes
    returns the graph it is given: at that point every tracked set is
    empty and every node already has the shape the call assigns. The
    whole inputs block is therefore its loop over the inputs. *)
Theorem update_node_shapes_call_is_noop network st0 items G1 nst1 :
  init_state network = Ok st0 →
  for_each (add_input network) st0 items = Ok (G1, nst1) →
  _update_node_shapes G1 nst1 = Ok G1
  ∧ inputs_phase network st0 =
      for_each (add_input network) st0 (default [] (inputs network)).
Proof.
  intros Hinit Hloop. split; [|by apply inputs_phase_loop].
  destruct (inputs_loop_inv _ _ _ _ (init_state_inputs_inv _ _ Hinit) Hloop)
    as (Hnodes & Hfresh & _). cbn [fst snd] in *.
  by apply update_node_shapes_fresh.
Qed.

Lemma start_types network G1 nst1 :
  build_prefix network [] = Ok (G1, nst1) →
  ∀ n, PyDict.get n nst1 =
         if bool_decide (n ∈ input_ids network) then Some (TStr "dummy")
         else if bool_decide (n ∈ PyDict.keys (populations network))
         then Some (TSet ∅) else None.
Proof.
  intros Hr n. apply build_prefix_nil in Hr as ([G0 nst0] & Hinit & Hinputs).
  pose proof (init_state_inputs_inv _ _ Hinit) as Hinv0.
  apply init_state_spec in Hinit as (_ & _ & _ & Htypes0).
  destruct (inputs_phase_spec _ _ _ Hinputs Hinv0) as (_ & Htypes1 & _).
  cbn [fst snd] in *. by rewrite Htypes1, Htypes0.
Qed.

(** ** The sets accumulated by the projections *)

Lemma resolve_edge_category_of proj network a :
  resolve_edge proj network = Ok a →
  PyDict.get "synapse_category" a = Some (VStr (category_of proj)).
Proof.
  unfold resolve_edge, _get_edge_attributes, category_of.
  repeat case_decide; intros Hr;
    repeat (apply bind_Ok in Hr as (? & _ & Hr)); by injection Hr as <-.
Qed.

Lemma add_projection_types network G nst p G' nst' :
  _add_projection network (G, nst) p = Ok (G', nst') →
  ∃ s, PyDict.get (presynaptic p) nst = Some (TSet s)
     ∧ nst' = PyDict.set (presynaptic p) (TSet ({[category_of p]} ∪ s)) nst.
Proof.
  intros Hr. apply add_projection_Ok in Hr as (a & Ha & Hadd & _).
  apply add_synapse_type_Ok in Hadd as (s & cat & Hpre & Hcat & ->).
  rewrite (resolve_edge_category_of _ _ _ Ha) in Hcat. injection Hcat as <-.
  by eauto.
Qed.

Lemma projections_loop_types network ps :
  ∀ G nst G' nst',
  for_each (_add_projection network) (G, nst) ps = Ok (G', nst') →
  ∀ n, match PyDict.get n nst with
       | Some (TSet s) =>
           ∃ s', PyDict.get n nst' = Some (TSet s') ∧
             ∀ x, x ∈ s' ↔
                  x ∈ s ∨ ∃ p, p ∈ ps ∧ presynaptic p = n ∧ category_of p = x
       | other => PyDict.get n nst' = other
       end.
Proof.
  induction ps as [|p ps IH]; intros G nst G' nst' Hloop n; cbn [for_each] in Hloop.
  - injection Hloop as <- <-. destruct (PyDict.get n nst) as [[s|?]|]; [|done..].
    exists s. split; [done|]. intros x. split; [by left|].
    intros [?|(p & Hp & _)]; [done | by apply elem_of_nil in Hp].
  - destruct (_add_projection network (G, nst) p) as [[G1 nst1]|] eqn:Hstep; [|done].
    apply add_projection_types in Hstep as (s0 & Hpre & ->).
    specialize (IH _ _ _ _ Hloop n). rewrite get_set in IH.
    destruct (decide (n = presynaptic p)) as [->|Hne].
    + rewrite Hpre. destruct IH as (s' & Hs' & Hmem). exists s'. split; [done|].
      intros x. rewrite Hmem, elem_of_union, elem_of_singleton. split.
      * intros [[->|?]|(q & Hq & Hpq & Hcq)].
        -- right. exists p. split_and!; [apply list_elem_of_here | done..].
        -- by left.
        -- right. exists q. split_and!; [by apply list_elem_of_further | done..].
      * intros [?|(q & Hq & Hpq & Hcq)]; [by left; right|].
        apply elem_of_cons in Hq as [->|Hq]; [by left; left|].
        right. by exists q.
    + destruct (PyDict.get n nst) as [[s|?]|]; [|done..].
      destruct IH as (s' & Hs' & Hmem). exists s'. split; [done|].
      intros x. rewrite Hmem. split.
      * intros [?|(q & Hq & Hpq & Hcq)]; [by left|].
        right. exists q. split_and!; [by apply list_elem_of_further | done..].
      * intros [?|(q & Hq & Hpq & Hcq)]; [by left|].
        apply elem_of_cons in Hq as [->|Hq]; [done|]. right. by exists q.
Qed.

(** X3. When the build returns, the set tracked for a population that is
    not an input node holds exactly the categories of the projections it
    is the presynaptic id of: a bidirectional projection adds nothing to
    the set of its postsynaptic node although it adds an edge leaving it.
    An input node keeps the string ['dummy']; no other node is tracked. *)
Theorem accumulated_categories network G nst n :
  build network = Ok (G, nst) →
  (n ∈ input_ids network → PyDict.get n nst = Some (TStr "dummy")) ∧
  (n ∉ input_ids network → n ∈ PyDict.keys (populations network) →
     ∃ s, PyDict.get n nst = Some (TSet s) ∧
       ∀ x, x ∈ s ↔
            ∃ p, p ∈ PyDict.values (projections network)
               ∧ presynaptic p = n ∧ category_of p = x) ∧
  (n ∉ input_ids network → n ∉ PyDict.keys (populations network) →
     PyDict.get n nst = None).
Proof.
  rewrite build_unfold, build_from_start. intros Hr.
  apply bind_Ok in Hr as ([G1 nst1] & Hstart & Hloop).
  pose proof (start_types _ _ _ Hstart n) as Hn.
  pose proof (projections_loop_types _ _ _ _ _ _ Hloop n) as Hloop_n.
  rewrite Hn in Hloop_n. split_and!.
  - intros Hin. by rewrite bool_decide_eq_true_2 in Hloop_n.
  - intros Hin Hpop.
    rewrite bool_decide_eq_false_2, bool_decide_eq_true_2 in Hloop_n by done.
    destruct Hloop_n as (s & Hs & Hmem). exists s. split; [done|].
    intros x. rewrite Hmem. split; [|by right].
    intros [Hempty|?]; [by apply not_elem_of_empty in Hempty | done].
  - intros Hin Hpop. by rewrite !bool_decide_eq_false_2 in Hloop_n.
Qed.

(** ** What a build that returns has required *)

Lemma init_state_colors network st0 :
  init_state network = Ok st0 →
  ∀ item, item ∈ populations network → is_Some (to_rgba_of (color item.2)).
Proof.
  unfold init_state. intros Hr [pop_id pop] Hin.
  apply bind_Ok in Hr as (G0 & Hloop & _).
  destruct (for_each_Ok_elem (λ _, True) _ _ (λ _ _ _ _ _, I) _ _ I Hloop _ Hin)
    as (G1 & G2 & _ & Hstep).
  apply add_population_Ok in Hstep as (c & Hc & _).
  unfold _convert_color in Hc. simpl.
  destruct (to_rgba_of (color pop)); [by eauto | done].
Qed.

Lemma add_projection_requirements network st p st' :
  projections_inv network st → _add_projection network st p = Ok st' →
  is_Some (synapse p)
  ∧ presynaptic p ∈ PyDict.keys (populations network)
  ∧ presynaptic p ∉ input_ids network.
Proof.
  destruct st as [G nst], st' as [G' nst']. intros (_ & Htypes & _) Hr.
  pose proof Hr as Hr'. apply add_projection_types in Hr' as (s & Hpre & _).
  apply add_projection_Ok in Hr as (a & Ha & _).
  specialize (Htypes (presynaptic p)); cbn [snd] in Htypes. rewrite Hpre in Htypes.
  split_and!.
  - unfold resolve_edge, _get_edge_attributes, proj_synapse in Ha.
    destruct (synapse p); [by eauto|]. by repeat case_decide.
  - by repeat case_bool_decide.
  - by case_bool_decide.
Qed.

Lemma built_projection_requirements network st p :
  build network = Ok st → p ∈ PyDict.values (projections network) →
  is_Some (synapse p)
  ∧ presynaptic p ∈ PyDict.keys (populations network)
  ∧ presynaptic p ∉ input_ids network.
Proof.
  rewrite build_unfold, build_from_start. intros Hr Hp.
  apply bind_Ok in Hr as ([G1 nst1] & Hstart & Hloop).
  apply build_prefix_spec in Hstart as [Hinv _].
  destruct (for_each_Ok_elem (projections_inv network) _ _
              (λ s x s', add_projection_inv network s x s') _ _ Hinv Hloop _ Hp)
    as (s1 & s2 & Hs1 & Hstep).
  by eapply add_projection_requirements.
Qed.

(** X4. A build that returns a graph has needed all of this: every
    population colour converts; when the model has inputs, the input
    colour converts and [input_sources] is present; every projection has
    a [synapse] key and a presynaptic id that names a population and no
    input node. (Each of these failing raises.) *)
Theorem build_requirements network st :
  build network = Ok st →
  (∀ item, item ∈ populations network → is_Some (to_rgba_of (color item.2))) ∧
  (∀ item items, inputs network = Some (item :: items) →
     is_Some (to_rgba_of "1 1 0") ∧ is_Some (input_sources network)) ∧
  (∀ p, p ∈ PyDict.values (projections network) →
     is_Some (synapse p)
     ∧ presynaptic p ∈ PyDict.keys (populations network)
     ∧ presynaptic p ∉ input_ids network).
Proof.
  intros Hb. pose proof Hb as Hr. rewrite build_unfold, build_from_start in Hr.
  apply bind_Ok in Hr as ([G1 nst1] & Hstart & Hloop).
  apply build_prefix_nil in Hstart as (st0 & Hinit & Hinputs). split_and!.
  - by eapply init_state_colors.
  - intros item items Hi. rewrite inputs_phase_loop, Hi in Hinputs by done.
    cbn [default from_option id for_each] in Hinputs.
    destruct st0 as [G0 nst0], item as [i info].
    destruct (add_input network (G0, nst0) (i, info)) as [st0'|] eqn:Hstep; [|done].
    apply add_input_Ok in Hstep as (c & Hc & Hsrc & _). split; [|done].
    unfold _convert_color in Hc. destruct (to_rgba_of "1 1 0"); [by eauto | done].
  - intros p Hp. by eapply built_projection_requirements.
Qed.


(** ** The nodes and edges of the built graph *)

Lemma elem_of_touch_node n ns n' :
  n' ∈ PyDict.keys (touch_node n ns) ↔ n' = n ∨ n' ∈ PyDict.keys ns.
Proof.
  rewrite <- !get_is_Some, get_touch_node.
  destruct (PyDict.get n' ns) as [a|]; [by split; eauto|].
  case_decide as Hn.
  - split; [by left | by eauto].
  - split; [by intros [? ?] | by intros [?|[? ?]]].
Qed.

Lemma NoDup_touch_node n ns :
  NoDup (PyDict.keys ns) → NoDup (PyDict.keys (touch_node n ns)).
Proof. unfold touch_node. destruct (PyDict.mem n ns); [done | apply NoDup_keys_set]. Qed.

Lemma elem_of_nodes_add_edge u v kw G n :
  n ∈ PyDict.keys (nodes (add_edge u v kw G)) ↔
    n = u ∨ n = v ∨ n ∈ PyDict.keys (nodes G).
Proof. unfold add_edge; cbn [nodes]. rewrite !elem_of_touch_node. tauto. Qed.

Lemma elem_of_edges_add_edge u v kw G uv :
  uv ∈ PyDict.keys (edges (add_edge u v kw G)) ↔
    uv = (u, v) ∨ uv ∈ PyDict.keys (edges G).
Proof. unfold add_edge; cbn [edges]. apply elem_of_keys_set. Qed.

Lemma endpoint_add_edge u v kw G n :
  endpoint (add_edge u v kw G) n ↔ n = u ∨ n = v ∨ endpoint G n.
Proof.
  unfold endpoint. split.
  - intros (uv & Huv & Hn). apply elem_of_edges_add_edge in Huv as [->|Huv].
    + simpl in Hn. tauto.
    + right; right. by exists uv.
  - intros [->|[->|(uv & Huv & Hn)]].
    + exists (u, v). split; [apply elem_of_edges_add_edge; by left | by left].
    + exists (u, v). split; [apply elem_of_edges_add_edge; by left | by right].
    + exists uv. split; [apply elem_of_edges_add_edge; by right | done].
Qed.

Lemma nodes_cover_add_edge u v kw G nst :
  nodes_cover G nst → nodes_cover (add_edge u v kw G) nst.
Proof.
  intros (Hnd & Hclosed & Hcover). split_and!.
  - unfold add_edge; cbn [nodes]. by do 2 apply NoDup_touch_node.
  - intros uv Huv. rewrite !elem_of_nodes_add_edge.
    apply elem_of_edges_add_edge in Huv as [->|Huv]; [simpl; tauto|].
    destruct (Hclosed _ Huv). tauto.
  - intros n. rewrite elem_of_nodes_add_edge, endpoint_add_edge.
    intros [?|[?|Hn]]; [tauto..|]. destruct (Hcover _ Hn); tauto.
Qed.

Lemma nodes_cover_add_node n kw t G nst :
  nodes_cover G nst → nodes_cover (add_node n kw G) (PyDict.set n t nst).
Proof.
  intros (Hnd & Hclosed & Hcover).
  assert (∀ n', n' ∈ PyDict.keys (nodes (add_node n kw G)) ↔
                n' = n ∨ n' ∈ PyDict.keys (nodes G)) as Hnodes
    by (intros n'; apply elem_of_keys_set).
  split_and!.
  - by apply NoDup_nodes_add_node.
  - intros uv Huv. rewrite !Hnodes. destruct (Hclosed _ Huv). tauto.
  - intros n'. rewrite Hnodes, elem_of_keys_set.
    intros [?|Hn']; [tauto|]. destruct (Hcover _ Hn'); tauto.
Qed.

Lemma nodes_cover_retrack n t G nst :
  nodes_cover G nst → nodes_cover G (PyDict.set n t nst).
Proof.
  intros (Hnd & Hclosed & Hcover). split_and!; [done..|].
  intros n' Hn'. rewrite elem_of_keys_set. destruct (Hcover _ Hn'); tauto.
Qed.

Lemma init_state_nodes_cover network G0 nst0 :
  init_state network = Ok (G0, nst0) → nodes_cover G0 nst0.
Proof.
  unfold init_state. intros Hr. apply bind_Ok in Hr as (G & Hloop & [= <- <-]).
  assert (population_nodes_ok G) as (He & Hnd & _).
  { eapply (for_each_invariant population_nodes_ok); [| |exact Hloop].
    - intros ???? ; apply add_population_nodes_ok.
    - split_and!; [done | apply NoDup_nil_2 | done]. }
  split_and!; [done | |].
  - intros uv. rewrite He. intros Huv. by apply elem_of_nil in Huv.
  - intros n Hn. left. by rewrite keys_const_dict.
Qed.

Lemma add_input_nodes_cover network st item st' :
  nodes_cover st.1 st.2 → add_input network st item = Ok st' →
  nodes_cover st'.1 st'.2.
Proof.
  destruct st as [G nst], item as [input_id input_info]. intros Hcover Hr.
  apply add_input_Ok in Hr as (c & _ & _ & ->). cbn [fst snd] in *.
  apply nodes_cover_add_edge. by apply nodes_cover_add_node.
Qed.

Lemma add_projection_nodes_cover network st p st' :
  nodes_cover st.1 st.2 → _add_projection network st p = Ok st' →
  nodes_cover st'.1 st'.2.
Proof.
  destruct st as [G nst], st' as [G' nst']. intros Hcover Hr. pose proof Hr as Hr'.
  apply add_projection_types in Hr' as (s & _ & ->).
  apply add_projection_Ok in Hr as (a & _ & _ & ->). cbn [fst snd] in *.
  case_decide; repeat apply nodes_cover_add_edge; by apply nodes_cover_retrack.
Qed.

Lemma build_nodes_cover network G nst :
  build network = Ok (G, nst) → nodes_cover G nst.
Proof.
  rewrite build_unfold, build_from_start. intros Hr.
  apply bind_Ok in Hr as (st1 & Hstart & Hloop).
  apply build_prefix_nil in Hstart as ([G0 nst0] & Hinit & Hinputs).
  rewrite inputs_phase_loop in Hinputs by done.
  change (nodes_cover (G, nst).1 (G, nst).2).
  eapply (for_each_invariant (λ st, nodes_cover st.1 st.2)); [| |exact Hloop].
  - intros s x s' _. apply (add_projection_nodes_cover network).
  - eapply (for_each_invariant (λ st, nodes_cover st.1 st.2)); [| |exact Hinputs].
    + intros s x s' _. apply (add_input_nodes_cover network).
    + by apply (init_state_nodes_cover network).
Qed.

Lemma built_edge_keys network G nst uv :
  build network = Ok (G, nst) →
  uv ∈ PyDict.keys (edges G) ↔
    uv ∈ input_pairs network
    ∨ ∃ p, p ∈ PyDict.values (projections network) ∧ uv ∈ edge_pairs p.
Proof.
  intros Hb. apply build_prefix_spec in Hb as [_ Hget]. specialize (Hget uv).
  rewrite <- get_is_Some.
  destruct (last_writer uv _) as [p|] eqn:Hlast.
  - destruct Hget as (a & _ & ->). split; [|by eauto]. intros _. right.
    exists p. by apply last_writer_Some.
  - rewrite Hget. case_bool_decide as Hin.
    + split; [by left | by eauto].
    + split; [by intros [? ?]|]. intros [?|(p & Hp & Huv)]; [done|].
      by destruct (last_writer_None _ _ _ Hlast Hp).
Qed.

Lemma built_tracked_nodes network G nst n :
  build network = Ok (G, nst) → n ∈ PyDict.keys nst ↔ n ∈ declared_nodes network.
Proof.
  intros Hb. apply build_prefix_spec in Hb as [(_ & Htypes & _) _].
  specialize (Htypes n); cbn [snd] in Htypes.
  rewrite <- get_is_Some. unfold declared_nodes. rewrite elem_of_app.
  repeat case_bool_decide.
  - rewrite Htypes. split; [by right | by eauto].
  - destruct Htypes as [s ->]. split; [by left | by eauto].
  - rewrite Htypes. split; [by intros [? ?] | tauto].
Qed.

(** X6. The edges of the built graph are exactly the input pairs and the
    pairs written by the projections; its nodes are exactly the ids the
    model declares and the endpoints of its edges; and no node occurs
    twice. *)
Theorem built_graph_nodes_and_edges network G nst :
  build network = Ok (G, nst) →
  NoDup (PyDict.keys (nodes G)) ∧
  (∀ uv, uv ∈ PyDict.keys (edges G) ↔
     uv ∈ input_pairs network
     ∨ ∃ p, p ∈ PyDict.values (projections network) ∧ uv ∈ edge_pairs p) ∧
  (∀ n, n ∈ PyDict.keys (nodes G) ↔ n ∈ declared_nodes network ∨ endpoint G n).
Proof.
  intros Hb. pose proof (build_nodes_cover _ _ _ Hb) as (Hnd & Hclosed & Hcover).
  split_and!; [done | by intros uv; apply (built_edge_keys network G nst) |].
  intros n. split.
  - intros Hn. destruct (Hcover _ Hn) as [Htracked|?]; [|by right].
    left. by eapply built_tracked_nodes.
  - intros [Hdecl|(uv & Huv & Hn)].
    + apply built_tracked_nodes with (n := n) in Hb as Hk. apply Hk in Hdecl.
      apply build_prefix_spec in Hb as [((_ & Htracked & _) & _) _]; cbn [fst snd] in *.
      apply get_is_Some in Hdecl as [t Ht].
      destruct (Htracked _ _ Ht) as (a & Ha & _). apply get_is_Some. by eauto.
    + destruct (Hclosed _ Huv). by destruct Hn as [-> | ->].
Qed.

(** X7. Every input of the model has its edge, from the input node to
    the target it names, in the built graph; unless a projection writes
    the same ordered pair, the edge carries the four fixed input
    attributes (solid, ['->'], yellow, synapse ['input']). *)
Theorem input_edges network G nst items input_id input_info :
  build network = Ok (G, nst) →
  inputs network = Some items →
  (input_id, input_info) ∈ items →
  (input_id, population input_info) ∈ PyDict.keys (edges G) ∧
  ((∀ p, p ∈ PyDict.values (projections network) →
         (input_id, population input_info) ∉ edge_pairs p) →
   PyDict.get (input_id, population input_info) (edges G) = Some input_edge_attrs).
Proof.
  intros Hb Hi Hin.
  assert ((input_id, population input_info) ∈ input_pairs network) as Hpair.
  { unfold input_pairs. rewrite Hi. apply list_elem_of_fmap.
    by exists (input_id, input_info). }
  split; [apply (built_edge_keys _ _ _ _ Hb); by left|].
  intros Hfree. apply build_prefix_spec in Hb as [_ Hget].
  specialize (Hget (input_id, population input_info)).
  destruct (last_writer _ _) as [p|] eqn:Hlast.
  - apply last_writer_Some in Hlast as [Hp Huv]. by destruct (Hfree p Hp).
  - by rewrite Hget, bool_decide_eq_true_2.
Qed.

(** ** The attributes of the nodes *)

Lemma populations_loop_attrs pops :
  ∀ G G', population_nodes_ok G → NoDup (PyDict.keys pops) →
  for_each add_population G pops = Ok G' →
  ∀ n, match PyDict.get n pops with
       | Some pop => ∃ c, to_rgba_of (color pop) = Some c
                        ∧ PyDict.get n (nodes G') = Some (population_attrs c pop)
       | None => PyDict.get n (nodes G') = PyDict.get n (nodes G)
       end.
Proof.
  induction pops as [|[k p0] pops IH]; intros G G' Hok Hnd Hloop n;
    cbn [for_each] in Hloop.
  - by injection Hloop as <-.
  - destruct (add_population G (k, p0)) as [G1|] eqn:Hstep; [|done].
    pose proof (add_population_nodes_ok _ _ _ Hok Hstep) as Hok1.
    apply add_population_Ok in Hstep as (c & Hc & ->).
    change (PyDict.keys ((k, p0) :: pops)) with (k :: PyDict.keys pops) in Hnd.
    apply NoDup_cons in Hnd as [Hk Hnd].
    specialize (IH _ _ Hok1 Hnd Hloop n). cbn [PyDict.get].
    destruct (decide (n = k)) as [->|Hne].
    + apply get_None in Hk. rewrite Hk in IH. rewrite IH, get_node_add_node.
      rewrite decide_True by done. exists c. split.
      * unfold _convert_color in Hc. by destruct (to_rgba_of (color p0)); simplify_eq.
      * f_equal. apply node_kw_replaces; [|done].
        destruct Hok as (_ & _ & Hattrs).
        destruct (PyDict.get k (nodes G)) as [old|] eqn:Hold; simpl; [|by left].
        right. by destruct (Hattrs _ _ Hold).
    + destruct (PyDict.get n pops); [done|].
      by rewrite IH, get_node_add_node, decide_False.
Qed.

Lemma add_input_nodes network st input_id input_info st' :
  inputs_inv st → add_input network st (input_id, input_info) = Ok st' →
  (∃ c, to_rgba_of "1 1 0" = Some c
      ∧ PyDict.get input_id (nodes st'.1) = Some (input_node_attrs c)) ∧
  (∀ n a, n ≠ input_id → PyDict.get n (nodes st.1) = Some a →
          PyDict.get n (nodes st'.1) = Some a).
Proof.
  destruct st as [G nst]. intros (Hnodes & _) Hr.
  apply add_input_Ok in Hr as (c & Hc & _ & ->). cbn [fst snd] in *.
  unfold _add_input_edge. split.
  - exists c. split.
    + unfold _convert_color in Hc. by destruct (to_rgba_of "1 1 0"); simplify_eq.
    + rewrite get_node_add_edge, get_node_add_node, decide_True by done.
      rewrite node_kw_replaces; [done | by eapply nodes_inv_old | done].
  - intros n a Hne Ha.
    by rewrite get_node_add_edge, get_node_add_node, decide_False, Ha.
Qed.

Lemma inputs_loop_nodes network items :
  ∀ st st', inputs_inv st → for_each (add_input network) st items = Ok st' →
  ∀ n, if bool_decide (n ∈ PyDict.keys items)
       then ∃ c, to_rgba_of "1 1 0" = Some c
               ∧ PyDict.get n (nodes st'.1) = Some (input_node_attrs c)
       else ∀ a, PyDict.get n (nodes st.1) = Some a →
                 PyDict.get n (nodes st'.1) = Some a.
Proof.
  induction items as [|[i info] items IH]; intros st st' Hinv Hloop n;
    cbn [for_each] in Hloop.
  - injection Hloop as <-. by rewrite bool_decide_eq_false_2 by apply not_elem_of_nil.
  - destruct (add_input network st (i, info)) as [st1|] eqn:Hstep; [|done].
    pose proof (add_input_inv _ _ _ _ Hinv Hstep) as Hinv1.
    destruct (add_input_nodes _ _ _ _ _ Hinv Hstep) as [(c & Hc & Hi) Hother].
    specialize (IH _ _ Hinv1 Hloop n).
    change (PyDict.keys ((i, info) :: items)) with (i :: PyDict.keys items).
    destruct (decide (n ∈ PyDict.keys items)) as [Hin|Hnin].
    + rewrite bool_decide_eq_true_2 in IH by done.
      rewrite bool_decide_eq_true_2; [done | by apply list_elem_of_further].
    + rewrite bool_decide_eq_false_2 in IH by done.
      destruct (decide (n = i)) as [->|Hne].
      * rewrite bool_decide_eq_true_2 by apply list_elem_of_here.
        exists c. split; [done | by apply IH].
      * rewrite bool_decide_eq_false_2; [|by intros [?|?]%elem_of_cons].
        intros a Ha. apply IH. by apply Hother.
Qed.

Lemma add_projection_keeps_nodes network st p st' n a :
  _add_projection network st p = Ok st' →
  PyDict.get n (nodes st.1) = Some a → PyDict.get n (nodes st'.1) = Some a.
Proof.
  destruct st as [G nst], st' as [G' nst']. intros Hr Ha.
  apply add_projection_Ok in Hr as (kw & _ & _ & ->). cbn [fst snd] in *.
  case_decide; rewrite ?get_node_add_edge, ?Ha; done.
Qed.

(** The nodes as the projections find them stay as they are. *)
Lemma built_node_from_start network G1 nst1 G nst n a :
  build_prefix network [] = Ok (G1, nst1) → build network = Ok (G, nst) →
  PyDict.get n (nodes G1) = Some a → PyDict.get n (nodes G) = Some a.
Proof.
  intros Hstart Hb Ha. rewrite build_unfold, build_from_start, Hstart in Hb.
  cbn [mbind result_bind] in Hb.
  change (PyDict.get n (nodes (G, nst).1) = Some a).
  eapply (for_each_invariant (λ st, PyDict.get n (nodes st.1) = Some a));
    [| |exact Hb]; [|done].
  intros s x s' _ Hs Hr. by eapply add_projection_keeps_nodes.
Qed.

(** X8. With population ids declared once, a population node that is not
    also an input id ends the build with exactly the attributes it was
    created with: its declared colour converted, the generic shape and
    its declared size. The build never gives it the colour blue or red. *)
Theorem population_node_attributes network G nst n pop :
  build network = Ok (G, nst) →
  NoDup (PyDict.keys (populations network)) →
  PyDict.get n (populations network) = Some pop →
  n ∉ input_ids network →
  ∃ c, to_rgba_of (color pop) = Some c
     ∧ PyDict.get n (nodes G) = Some (population_attrs c pop).
Proof.
  intros Hb Hnd Hpop Hin. pose proof Hb as Hr.
  rewrite build_unfold, build_from_start in Hr.
  apply bind_Ok in Hr as ([G1 nst1] & Hstart & _). pose proof Hstart as Hstart'.
  apply build_prefix_nil in Hstart' as ([G0 nst0] & Hinit & Hinputs).
  pose proof (init_state_inputs_inv _ _ Hinit) as Hinv0.
  rewrite inputs_phase_loop in Hinputs by done.
  pose proof (inputs_loop_nodes _ _ _ _ Hinv0 Hinputs n) as Hn.
  assert (PyDict.keys (default [] (inputs network)) = input_ids network) as Hids
    by (unfold input_ids; by destruct (inputs network)).
  rewrite Hids, bool_decide_eq_false_2 in Hn by done. cbn [fst] in Hn.
  unfold init_state in Hinit. apply bind_Ok in Hinit as (G0' & Hloop & [= <- <-]).
  assert (population_nodes_ok empty_graph) as Hempty
    by (split_and!; [done | apply NoDup_nil_2 | done]).
  pose proof (populations_loop_attrs _ _ _ Hempty Hnd Hloop n) as Hattrs.
  rewrite Hpop in Hattrs. destruct Hattrs as (c & Hc & Hget).
  exists c. split; [done|]. eapply built_node_from_start; [done..|]. by apply Hn.
Qed.

(** X9. Every input node ends the build with the converted input colour
    ["1 1 0"], the input shape and the size 2, also when its id is a
    population id as well (the population's attributes are replaced). A
    node the model does not declare carries no attribute at all. *)
Theorem input_node_attributes network G nst n :
  build network = Ok (G, nst) →
  (n ∈ input_ids network →
     ∃ c, to_rgba_of "1 1 0" = Some c
        ∧ PyDict.get n (nodes G) = Some (input_node_attrs c)) ∧
  (n ∉ declared_nodes network →
     ∀ a, PyDict.get n (nodes G) = Some a → a = []).
Proof.
  intros Hb. split.
  - intros Hin. pose proof Hb as Hr.
    rewrite build_unfold, build_from_start in Hr.
    apply bind_Ok in Hr as ([G1 nst1] & Hstart & _). pose proof Hstart as Hstart'.
    apply build_prefix_nil in Hstart' as ([G0 nst0] & Hinit & Hinputs).
    pose proof (init_state_inputs_inv _ _ Hinit) as Hinv0.
    rewrite inputs_phase_loop in Hinputs by done.
    pose proof (inputs_loop_nodes _ _ _ _ Hinv0 Hinputs n) as Hn.
    assert (PyDict.keys (default [] (inputs network)) = input_ids network) as Hids
      by (unfold input_ids; by destruct (inputs network)).
    rewrite Hids, bool_decide_eq_true_2 in Hn by done. cbn [fst] in Hn.
    destruct Hn as (c & Hc & Hget). exists c. split; [done|].
    by eapply built_node_from_start.
  - intros Hdecl a Ha.
    assert (PyDict.get n nst = None) as Hnone.
    { apply get_None. intros Hk. apply Hdecl. by eapply built_tracked_nodes. }
    apply build_prefix_spec in Hb as [((_ & _ & Hother) & _) _]; cbn [fst snd] in *.
    by eapply Hother.
Qed.

(** ** The size of the graph *)

Lemma length_edge_pairs p : (length (edge_pairs p) ≤ 2)%nat.
Proof. unfold edge_pairs. case_decide; simpl; lia. Qed.

Lemma length_bind_edge_pairs (ps : list Projection) :
  (length (ps ≫= edge_pairs) ≤ 2 * length ps)%nat.
Proof.
  induction ps as [|p ps IH]; [done|]. rewrite bind_cons, length_app.
  pose proof (length_edge_pairs p). simpl. lia.
Qed.

(** X10. The built graph has at most one edge per input and two per
    projection, and at most one node per declared id, one per input
    target and one per projection. *)
Theorem built_graph_size network G nst :
  build network = Ok (G, nst) →
  (length (edges G) ≤
     length (input_pairs network) + 2 * length (projections network))%nat ∧
  (length (nodes G) ≤
     length (declared_nodes network) + length (input_pairs network)
     + length (projections network))%nat.
Proof.
  intros Hb. split.
  - assert (PyDict.keys (edges G) ⊆+
              input_pairs network
              ++ (PyDict.values (projections network) ≫= edge_pairs)) as Hsub.
    { apply NoDup_submseteq.
      - by apply build_prefix_spec in Hb as [(_ & _ & _ & Hnd) _].
      - intros uv Huv. apply (built_edge_keys _ _ _ _ Hb) in Huv as [?|(p & Hp & Huv)].
        + apply elem_of_app. by left.
        + apply elem_of_app. right. apply list_elem_of_bind. by exists p. }
    apply submseteq_length in Hsub. rewrite length_app in Hsub.
    pose proof (length_bind_edge_pairs (PyDict.values (projections network))) as Hlen.
    unfold PyDict.keys, PyDict.values in *. rewrite !length_fmap in *. lia.
  - pose proof (build_nodes_cover _ _ _ Hb) as (Hnd & _ & Hcover).
    assert (PyDict.keys (nodes G) ⊆+
              declared_nodes network ++ (input_pairs network).*2
              ++ (postsynaptic <$> PyDict.values (projections network))) as Hsub.
    { apply NoDup_submseteq; [done|]. intros n Hn. rewrite !elem_of_app.
      destruct (Hcover _ Hn) as [Htracked|(uv & Huv & Hends)].
      { left. by eapply built_tracked_nodes. }
      apply (built_edge_keys _ _ _ _ Hb) in Huv as [Huv|(p & Hp & Huv)].
      - unfold input_pairs, declared_nodes, input_ids in *.
        destruct (inputs network) as [items|]; [|by apply elem_of_nil in Huv].
        apply list_elem_of_fmap in Huv as ([i info] & -> & Hitem). simpl in Hends.
        destruct Hends as [-> | ->].
        + left. apply elem_of_app. right. apply list_elem_of_fmap. by exists (i, info).
        + right; left. apply list_elem_of_fmap. exists (i, population info).
          split; [done|]. apply list_elem_of_fmap. by exists (i, info).
      - destruct (built_projection_requirements _ _ _ Hb Hp) as (_ & Hpre & _).
        assert (n = presynaptic p ∨ n = postsynaptic p) as [-> | ->].
        { apply elem_of_edge_pairs in Huv as [->|[_ ->]]; simpl in Hends; tauto. }
        + left. unfold declared_nodes. apply elem_of_app. by left.
        + right; right. apply list_elem_of_fmap. by exists p. }
    apply submseteq_length in Hsub. rewrite !length_app in Hsub.
    unfold PyDict.keys, PyDict.values in *. rewrite !length_fmap in *. lia.
Qed.

(** ** The order of the projections *)





(** ** The sizes of the nodes *)

Lemma sized_add_edge u v kw G : sized G → sized (add_edge u v kw G).
Proof.
  intros Hs n a. rewrite get_node_add_edge.
  destruct (PyDict.get n (nodes G)) as [a0|] eqn:Ha0.
  - intros [= <-]. by eapply Hs.
  - case_decide; [intros [= <-]; by left | done].
Qed.

Lemma sized_add_node n kw G m :
  sized G → PyDict.update (default [] (PyDict.get n (nodes G))) kw = kw →
  PyDict.get "size" kw = Some (VNum m) → sized (add_node n kw G).
Proof.
  intros Hs Hkw Hm n' a. rewrite get_node_add_node, Hkw.
  case_decide; [intros [= <-]; by eauto | apply Hs].
Qed.

Lemma init_state_sized network G0 nst0 :
  init_state network = Ok (G0, nst0) → sized G0.
Proof.
  unfold init_state. intros Hr. apply bind_Ok in Hr as (G & Hloop & [= <- <-]).
  cut (population_nodes_ok G ∧ sized G); [by intros [_ ?]|].
  eapply (for_each_invariant (λ G, population_nodes_ok G ∧ sized G));
    [| |exact Hloop].
  - intros G1 [pop_id pop] G2 _ [Hok Hs] Hstep.
    split; [by eapply add_population_nodes_ok|].
    apply add_population_Ok in Hstep as (c & _ & ->).
    eapply sized_add_node; [done | | done].
    apply node_kw_replaces; [|done]. destruct Hok as (_ & _ & Hattrs).
    destruct (PyDict.get pop_id (nodes G1)) as [old|] eqn:Hold; simpl; [|by left].
    right. by destruct (Hattrs _ _ Hold).
  - split; [|done]. split_and!; [done | apply NoDup_nil_2 | done].
Qed.

Lemma build_sized network G nst : build network = Ok (G, nst) → sized G.
Proof.
  rewrite build_unfold, build_from_start. intros Hr.
  apply bind_Ok in Hr as (st1 & Hstart & Hloop).
  apply build_prefix_nil in Hstart as ([G0 nst0] & Hinit & Hinputs).
  rewrite inputs_phase_loop in Hinputs by done.
  change (sized (G, nst).1).
  eapply (for_each_invariant (λ st, sized st.1)); [| |exact Hloop].
  - intros [Ga nsta] p [Gb nstb] _ Hs Hstep.
    apply add_projection_Ok in Hstep as (a & _ & _ & ->). cbn [fst] in *.
    case_decide; repeat apply sized_add_edge; done.
  - cut (inputs_inv st1 ∧ sized st1.1); [by intros [_ ?]|].
    eapply (for_each_invariant (λ st, inputs_inv st ∧ sized st.1));
      [| |exact Hinputs].
    + intros [Ga nsta] [i info] st _ [Hinv Hs] Hstep.
      split; [by eapply add_input_inv|].
      apply add_input_Ok in Hstep as (c & _ & _ & ->). cbn [fst] in *.
      apply sized_add_edge. eapply sized_add_node; [done | | done].
      apply node_kw_replaces; [|done]. destruct Hinv as (Hnodes & _).
      by eapply nodes_inv_old.
    + split; [by eapply init_state_inputs_inv | by eapply init_state_sized].
Qed.

End Further.

(** ** The layout and the first step of drawing *)

Section DrawingFacts.
Context `{Host}.
Variable point : Type.
Variable circle_point : nat → nat → point.
Variable float_num_gt : num → num → bool.
Variable rgba_gt : rgba → rgba → bool.
Import PyDictFacts.

Lemma max_loop_sized (items : list (string * attrs)) b :
  (∀ item, item ∈ items → ∃ m, PyDict.get "size" item.2 = Some (VNum m)) →
  ∃ m, for_each (max_step float_num_gt rgba_gt) (VNum b) items = Ok (VNum m).
Proof.
  revert b. induction items as [|[n a] items IH]; intros b Hall; cbn [for_each].
  - by eauto.
  - destruct (Hall (n, a)) as [m Hm]; [apply list_elem_of_here|]. simpl in Hm.
    unfold max_step, PyDict.getitem; cbn [snd]. rewrite Hm. cbn.
    destruct (num_gt float_num_gt m b);
      apply IH; intros ??; apply Hall; by apply list_elem_of_further.
Qed.

Lemma max_loop_unsized (items : list (string * attrs)) b :
  (∀ item, item ∈ items →
     item.2 = [] ∨ ∃ m, PyDict.get "size" item.2 = Some (VNum m)) →
  (∃ item, item ∈ items ∧ item.2 = []) →
  for_each (max_step float_num_gt rgba_gt) (VNum b) items = Raise (KeyError "size").
Proof.
  revert b. induction items as [|[n a] items IH]; intros b Hall (item & Hin & Hempty).
  - by apply elem_of_nil in Hin.
  - cbn [for_each].
    destruct (Hall (n, a)) as [Ha|[m Hm]]; [apply list_elem_of_here | |];
      simpl in *.
    + by rewrite Ha.
    + unfold max_step, PyDict.getitem; cbn [snd]. rewrite Hm. cbn.
      assert (∃ item, item ∈ items ∧ item.2 = []) as Hrest.
      { apply elem_of_cons in Hin as [->|Hin]; [|by eauto].
        simpl in Hempty. subst a. discriminate. }
      destruct (num_gt float_num_gt m b);
        (apply IH; [intros ??; apply Hall; by apply list_elem_of_further | done]).
Qed.

(** X12. On a built graph the computation of [max_size] that opens
    [draw_graph] raises [KeyError('size')] as soon as the graph has a
    node the model does not declare (a postsynaptic id or an input
    target that names no population or input): such a model builds but
    cannot be drawn. It raises [ValueError] when the model declares no
    node, and returns a number otherwise. *)
Theorem max_size_of_built_graph network G nst :
  build network = Ok (G, nst) →
  (declared_nodes network = [] →
     max_size float_num_gt rgba_gt G =
       Raise (ValueError "max() arg is an empty sequence")) ∧
  (∀ n, n ∈ PyDict.keys (nodes G) → n ∉ declared_nodes network →
     max_size float_num_gt rgba_gt G = Raise (KeyError "size")) ∧
  (declared_nodes network ≠ [] →
   (∀ n, n ∈ PyDict.keys (nodes G) → n ∈ declared_nodes network) →
     ∃ m, max_size float_num_gt rgba_gt G = Ok (VNum m)).
Proof.
  intros Hb. pose proof (build_sized _ _ _ Hb) as Hsized.
  pose proof (build_nodes_cover _ _ _ Hb) as (Hnd & _ & Hcover).
  assert (∀ item, item ∈ nodes G →
            item.2 = [] ∨ ∃ m, PyDict.get "size" item.2 = Some (VNum m)) as Hitems.
  { intros [n a] Hin. apply (Hsized n). by apply elem_get. }
  assert (∀ n a, PyDict.get n (nodes G) = Some a →
            n ∈ declared_nodes network → a ≠ []) as Hdeclared.
  { intros n a Ha Hn ->. apply (built_tracked_nodes _ _ _ n Hb) in Hn.
    apply get_is_Some in Hn as [t Ht].
    apply build_prefix_spec in Hb as [((_ & Htracked & _) & _) _]; cbn [fst snd] in *.
    destruct (Htracked _ _ Ht) as (a' & Ha' & Hk & _). by simplify_eq. }
  assert (∀ n a, PyDict.get n (nodes G) = Some a →
            n ∉ declared_nodes network → a = []) as Hundeclared.
  { intros n a Ha Hn.
    assert (PyDict.get n nst = None) as Hnone.
    { apply get_None. intros Hk. apply Hn. by eapply built_tracked_nodes. }
    apply build_prefix_spec in Hb as [((_ & _ & Hother) & _) _]; cbn [fst snd] in *.
    by eapply Hother. }
  split_and!.
  - intros Hnone. unfold max_size.
    destruct (nodes G) as [|[n a] rest] eqn:Hnodes; [done|]. exfalso.
    assert (n ∈ PyDict.keys ((n, a) :: rest)) as Hn by apply list_elem_of_here.
    destruct (Hcover _ Hn) as [Htracked|(uv & Huv & _)].
    + apply (built_tracked_nodes _ _ _ n Hb) in Htracked.
      rewrite Hnone in Htracked. by apply elem_of_nil in Htracked.
    + apply (built_edge_keys _ _ _ _ Hb) in Huv as [Huv|(p & Hp & _)].
      * unfold declared_nodes in Hnone. apply app_eq_nil in Hnone as [_ Hids].
        unfold input_pairs, input_ids in *.
        destruct (inputs network) as [items|]; [|by apply elem_of_nil in Huv].
        destruct items; [by apply elem_of_nil in Huv | discriminate].
      * destruct (built_projection_requirements _ _ _ Hb Hp) as (_ & Hpre & _).
        unfold declared_nodes in Hnone. apply app_eq_nil in Hnone as [Hpops _].
        rewrite Hpops in Hpre. by apply elem_of_nil in Hpre.
  - intros n Hn Hdecl. apply get_is_Some in Hn as [a Ha].
    pose proof (Hundeclared _ _ Ha Hdecl) as ->. apply get_Some_elem in Ha.
    unfold max_size. destruct (nodes G) as [|[n0 a0] rest]; [by apply elem_of_nil in Ha|].
    destruct (Hitems (n0, a0)) as [Ha0|[m Hm]]; [apply list_elem_of_here | |];
      simpl in *.
    + by rewrite Ha0.
    + unfold PyDict.getitem. rewrite Hm. cbn [mbind result_bind].
      apply max_loop_unsized.
      * intros ??; apply Hitems; by apply list_elem_of_further.
      * apply elem_of_cons in Ha as [Heq|Ha]; [|by exists (n, [])].
        injection Heq as _ <-. discriminate Hm.
  - intros Hsome Hall.
    assert (∀ item, item ∈ nodes G →
              ∃ m, PyDict.get "size" item.2 = Some (VNum m)) as Hnum.
    { intros [n a] Hin. pose proof (elem_get _ _ _ Hnd Hin) as Ha.
      destruct (Hsized _ _ Ha) as [->|?]; [|done]. exfalso.
      eapply Hdeclared; [done | | done]. apply Hall, get_is_Some. by eauto. }
    unfold max_size. destruct (nodes G) as [|[n0 a0] rest] eqn:Hnodes.
    + exfalso. destruct (declared_nodes network) as [|n l] eqn:Hd; [done|].
      assert (n ∈ PyDict.keys nst) as Hk
        by (apply (built_tracked_nodes _ _ _ n Hb); rewrite Hd; apply list_elem_of_here).
      apply get_is_Some in Hk as [t Ht].
      apply build_prefix_spec in Hb as [((_ & Htracked & _) & _) _]; cbn [fst snd] in *.
      destruct (Htracked _ _ Ht) as (a & Ha & _). by rewrite Hnodes in Ha.
    + destruct (Hnum (n0, a0)) as [m Hm]; [apply list_elem_of_here|]. simpl in Hm.
      unfold PyDict.getitem. rewrite Hm. cbn [mbind result_bind].
      apply max_loop_sized. intros ??; apply Hnum; by apply list_elem_of_further.
Qed.

Lemma positions_fold (N : nat) (l : list string) :
  ∀ i (acc : list (string * point)), NoDup (PyDict.keys acc ++ l) →
  foldl (λ pos item, PyDict.set item.2 (circle_point item.1 N) pos) acc
        (enumerate_from i l) =
    acc ++ ((λ item : nat * string, (item.2, circle_point item.1 N))
              <$> enumerate_from i l).
Proof.
  induction l as [|n l IH]; intros i acc Hnd; cbn [enumerate_from foldl].
  - by rewrite app_nil_r.
  - cbn [fst snd]. rewrite set_fresh.
    2:{ apply get_None. apply NoDup_app in Hnd as (_ & Hdisj & _).
        intros Hin. apply (Hdisj _ Hin), list_elem_of_here. }
    rewrite IH.
    + rewrite fmap_cons. by rewrite <- app_assoc.
    + unfold PyDict.keys in *. rewrite fmap_app. cbn. by rewrite <- app_assoc.
Qed.

Lemma enumerate_from_snd {A} i (l : list A) : (enumerate_from i l).*2 = l.
Proof. revert i. induction l as [|x l IH]; intros i; csimpl; [done|]. by rewrite IH. Qed.

Lemma enumerate_from_lookup {A} i (l : list A) j x :
  l !! j = Some x → (i + j, x) ∈ enumerate_from i l.
Proof.
  revert i j. induction l as [|y l IH]; intros i j; [done|].
  destruct j as [|j]; cbn [enumerate_from].
  - intros [= ->]. rewrite Nat.add_0_r. apply list_elem_of_here.
  - intros Hj. apply list_elem_of_further.
    replace (i + S j) with (S i + j) by lia. by apply IH.
Qed.

(** X13. [set_node_positions] gives every node of the graph one position,
    in the order of the nodes: the node at index [i] of [n] nodes gets
    the point of angle [2 * pi * i / n]. On a built graph both endpoints
    of every edge therefore have a position. *)
Theorem set_node_positions_covers G :
  NoDup (PyDict.keys (nodes G)) →
  let pos := set_node_positions point circle_point G in
  PyDict.keys pos = PyDict.keys (nodes G) ∧
  (∀ i n, PyDict.keys (nodes G) !! i = Some n →
          PyDict.get n pos = Some (circle_point i (length (nodes G)))) ∧
  (∀ network nst uv, build network = Ok (G, nst) →
     uv ∈ PyDict.keys (edges G) →
     is_Some (PyDict.get uv.1 pos) ∧ is_Some (PyDict.get uv.2 pos)).
Proof.
  intros Hnd pos.
  assert (pos = (λ item : nat * string,
                   (item.2, circle_point item.1 (length (PyDict.keys (nodes G)))))
                  <$> enumerate_from 0 (PyDict.keys (nodes G))) as Hpos.
  { unfold pos, set_node_positions. by rewrite positions_fold. }
  assert (PyDict.keys pos = PyDict.keys (nodes G)) as Hkeys.
  { rewrite Hpos. unfold PyDict.keys at 1. rewrite <- list_fmap_compose.
    apply enumerate_from_snd. }
  split_and!; [done | |].
  - intros i n Hi. apply elem_get; [by rewrite Hkeys|].
    rewrite Hpos. apply list_elem_of_fmap. exists (i, n). split.
    + unfold PyDict.keys. by rewrite length_fmap.
    + by apply (enumerate_from_lookup 0).
  - intros network nst uv Hb Huv.
    destruct (build_nodes_cover _ _ _ Hb) as (_ & Hclosed & _).
    destruct (Hclosed _ Huv). rewrite !get_is_Some, Hkeys. done.
Qed.

End DrawingFacts.

(** * The claims on concrete models *)

(** The build of [scenario_A] (C1): the set of [P] holds the category
    excitatory, the classifier applied to the final state would give the
    excitatory shape, and the graph has the generic one. *)
Lemma scenario_A_shape_is_generic :
  ∃ G nst, build scenario_A = Ok (G, nst)
    ∧ PyDict.get "P" nst = Some (TSet {["excitatory"]})
    ∧ (∃ G', _update_node_shapes G nst = Ok G'
           ∧ node_attr G' "P" "shape" = Some (VStr "^"))
    ∧ node_attr G "P" "shape" = Some (VStr "s").
Proof.
  eexists _, _. split_and!.
  - vm_compute. reflexivity.
  - vm_compute. reflexivity.
  - eexists. split; vm_compute; reflexivity.
  - eapply (population_shape_stays_generic scenario_A).
    + vm_compute. reflexivity.
    + apply list_elem_of_here.
    + apply not_elem_of_nil.
Defined.

(** A bidirectional projection from a node to itself leaves one edge
    (against C2 as stated). *)
Lemma bidirectional_self_loop_single_edge :
  ∃ G nst, build self_loop_model = Ok (G, nst)
    ∧ PyDict.keys (edges G) = [("P", "P")].
Proof. eexists _, _. split; vm_compute; reflexivity. Qed.

Lemma bidirectional_projection_edges_witness :
  ∃ G nst a, build bidirectional_model = Ok (G, nst)
    ∧ PyDict.get ("P", "Q") (edges G) = Some a
    ∧ PyDict.get ("Q", "P") (edges G) = Some a
    ∧ PyDict.get "info" a = Some (VStr "Weight: 5, Delay: 2.5")
    ∧ length (PyDict.keys (edges G)) = 2.
Proof.
  assert (∃ st, build bidirectional_model = Ok st) as [[G nst] Hb]
    by (eexists; vm_compute; reflexivity).
  destruct (bidirectional_projection_edges bidirectional_model G nst []
              (sample_proj "P" "Q" (Some "gabaSyn") (Some "bidirectional")
                 (Some (@NInt sample_host 5)) (Some (@NFloat sample_host F2_5))) []
              Hb eq_refl eq_refl)
    as (a & Ha & H1 & H2 & _).
  - discriminate.
  - intros q uv Hq. by apply elem_of_nil in Hq.
  - exists G, nst, a. split_and!; [exact Hb | exact H1 | exact H2 | |].
    + vm_compute in Ha. injection Ha as <-. reflexivity.
    + vm_compute in Hb. injection Hb as <- <-. reflexivity.
Defined.

(** A postsynaptic id and an input target that name no population do not
    fail the build (against C3 as stated): both are added as nodes
    without attributes. *)
Lemma dangling_references_build :
  ∃ G nst, build dangling_model = Ok (G, nst)
    ∧ PyDict.get "Z" (nodes G) = Some []
    ∧ PyDict.get "X" (nodes G) = Some []
    ∧ PyDict.mem ("Q", "Z") (edges G) = true
    ∧ PyDict.mem ("I", "X") (edges G) = true.
Proof. eexists _, _. split_and!; vm_compute; reflexivity. Qed.

Lemma unknown_population_reference_witness :
  raises (build unknown_pre_model)
  ∧ build unknown_pre_model = Raise (KeyError "X")
  ∧ ∃ st, build dangling_model = Ok st.
Proof.
  split_and!.
  - apply (proj1 (unknown_population_reference unknown_pre_model)
             (sample_proj "X" "Q" (Some "ampaSyn") None None None)).
    + apply list_elem_of_further, list_elem_of_here.
    + intros Hin. apply list_elem_of_singleton in Hin. discriminate.
  - eapply (proj1 (proj2 (unknown_population_reference unknown_pre_model))
              [sample_proj "Q" "Q" (Some "ampaSyn") None None None]
              (sample_proj "X" "Q" (Some "ampaSyn") None None None) []).
    + reflexivity.
    + vm_compute. reflexivity.
    + intros Hin. apply list_elem_of_singleton in Hin. discriminate.
    + apply not_elem_of_nil.
    + by eexists.
  - apply (proj2 (proj2 (unknown_population_reference dangling_model))).
    + intros item Hin. apply list_elem_of_singleton in Hin as ->. by eexists.
    + intros item items _. split; by eexists.
    + intros p Hp. apply list_elem_of_singleton in Hp as ->. split_and!.
      * by eexists.
      * apply list_elem_of_here.
      * intros Hin. apply list_elem_of_singleton in Hin. discriminate.
Defined.

Lemma node_classifier_precedence_witness :
  ∃ G', update_node_shape sample_graph ("P", TSet {["excitatory"]}) = Ok G'
    ∧ node_attr G' "P" "shape" = Some (VStr "^")
    ∧ node_attr G' "P" "color" = Some (VStr "blue").
Proof.
  destruct (node_classifier_precedence sample_graph "P" _
              (TSet {["excitatory"]}) eq_refl)
    as (G' & HG' & _ & Hexc & _).
  exists G'. split; [exact HG'|]. apply Hexc; vm_compute; reflexivity.
Defined.


Lemma resolve_edge_missing_synapse_witness :
  synapse_type_of (sample_proj "P" "P" None None None None) = "generic"
  ∧ resolve_edge (sample_proj "P" "P" None None None None) no_synapse_model =
      Raise (KeyError "synapse").
Proof. apply resolve_edge_missing_synapse. reflexivity. Defined.

(** The build stops on that projection. *)
Lemma no_synapse_model_fails :
  build no_synapse_model = Raise (KeyError "synapse").
Proof. vm_compute. reflexivity. Qed.

(** The edge of an input carries neither [info] nor [synapse_category]
    (against C7 as stated). *)
Lemma input_edge_lacks_info :
  ∃ G nst a, build scenario_D = Ok (G, nst)
    ∧ PyDict.get ("I", "Q") (edges G) = Some a
    ∧ PyDict.get "info" a = None
    ∧ PyDict.get "synapse_category" a = None.
Proof. eexists _, _, _. split_and!; vm_compute; reflexivity. Qed.

Lemma built_graph_attributes_witness :
  ∃ G nst, build dangling_model = Ok (G, nst)
    ∧ (∃ a, PyDict.get "Q" (nodes G) = Some a ∧ PyDict.keys a = node_keys)
    ∧ (∃ a, PyDict.get "I" (nodes G) = Some a ∧ PyDict.keys a = node_keys)
    ∧ (∃ a, PyDict.get ("Q", "Z") (edges G) = Some a ∧ PyDict.keys a = edge_keys)
    ∧ (∃ a, PyDict.get ("I", "X") (edges G) = Some a
          ∧ PyDict.keys a = input_edge_keys).
Proof.
  assert (∃ st, build dangling_model = Ok st) as [[G nst] Hb]
    by (eexists; vm_compute; reflexivity).
  destruct (built_graph_attributes dangling_model G nst Hb) as [Hnodes _].
  exists G, nst. split_and!; [exact Hb | | | |].
  - apply Hnodes. apply list_elem_of_here.
  - apply Hnodes. apply list_elem_of_further, list_elem_of_here.
  - vm_compute in Hb. injection Hb as <- <-. by eexists.
  - vm_compute in Hb. injection Hb as <- <-. by eexists.
Defined.

(** A projection of kind [generic] puts the category generic in the set
    of its presynaptic node (against C8 as stated). *)
Lemma generic_enters_accumulated_set :
  ∃ G nst, build generic_model = Ok (G, nst)
    ∧ PyDict.get "P" nst = Some (TSet {["generic"]}).
Proof. eexists _, _. split; vm_compute; reflexivity. Qed.

Lemma generic_category_is_inert_witness :
  update_node_shape sample_graph ("P", TSet ({["generic"]} ∪ {["excitatory"]})) =
  update_node_shape sample_graph ("P", TSet {["excitatory"]}).
Proof. apply (proj2 (generic_category_is_inert (H := sample_host))). Defined.

Lemma format_edge_info_cases_witness :
  _format_edge_info
    (sample_proj "P" "Q" (Some "ampaSyn") None (Some (@NInt sample_host 5)) None) =
    "Weight: 5".
Proof.
  apply (proj2 (proj2 (proj2 (proj2 (format_edge_info_cases _))))); reflexivity.
Defined.

Lemma one_edge_per_ordered_pair_witness :
  ∃ G nst a, build overwrite_model = Ok (G, nst)
    ∧ NoDup (PyDict.keys (edges G))
    ∧ resolve_edge (sample_proj "P" "Q" (Some "gabaSyn") None None None)
        overwrite_model = Ok a
    ∧ PyDict.get ("P", "Q") (edges G) = Some a
    ∧ PyDict.get "synapse" a = Some (VStr "gabaSyn").
Proof.
  assert (∃ st, build overwrite_model = Ok st) as [[G nst] Hb]
    by (eexists; vm_compute; reflexivity).
  destruct (one_edge_per_ordered_pair overwrite_model G nst Hb) as (Hnd & _ & Hlast).
  destruct (Hlast ("P", "Q")
              [sample_proj "P" "Q" (Some "ampaSyn") None None None]
              (sample_proj "P" "Q" (Some "gabaSyn") None None None) [] eq_refl)
    as (a & Ha & Hget).
  - apply list_elem_of_here.
  - intros q Hq. by apply elem_of_nil in Hq.
  - exists G, nst, a. split_and!; [exact Hb | exact Hnd | exact Ha | exact Hget |].
    vm_compute in Ha. injection Ha as <-. reflexivity.
Defined.

(** * The further properties on concrete models *)

Local Ltac by_computation := apply (bool_decide_unpack _); vm_compute; exact I.

Lemma update_node_shapes_frame_witness :
  ∃ G', _update_node_shapes sample_graph [("P", TSet {["inhibitory"]})] = Ok G'
    ∧ shape_update sample_graph G'
    ∧ node_attr G' "P" "size" = Some (VNum (NInt 10)).
Proof.
  destruct (proj2 (proj2 (update_node_shapes_frame sample_graph
                            [("P", TSet {["inhibitory"]})]))) as [G' HG'].
  { intros n Hn. apply list_elem_of_singleton in Hn as ->. apply list_elem_of_here. }
  destruct (proj1 (update_node_shapes_frame sample_graph
                     [("P", TSet {["inhibitory"]})]) G' HG') as [Hupd _].
  exists G'. split_and!; [done..|].
  destruct Hupd as (_ & _ & Hattr). by rewrite Hattr.
Defined.

Lemma update_node_shapes_call_is_noop_witness :
  ∃ st0 G1 nst1,
    init_state scenario_D = Ok st0
    ∧ for_each (add_input scenario_D) st0
        [("I", {| population := "Q"; input_source := "src" |})] = Ok (G1, nst1)
    ∧ _update_node_shapes G1 nst1 = Ok G1.
Proof.
  assert (∃ st0, init_state scenario_D = Ok st0) as [st0 H0]
    by (eexists; vm_compute; reflexivity).
  assert (∃ st1, for_each (add_input scenario_D) st0
                   [("I", {| population := "Q"; input_source := "src" |})] = Ok st1)
    as [[G1 nst1] H1].
  { vm_compute in H0. injection H0 as <-. eexists. vm_compute. reflexivity. }
  exists st0, G1, nst1. split_and!; [done..|].
  by destruct (update_node_shapes_call_is_noop scenario_D st0 _ G1 nst1 H0 H1).
Defined.

Lemma accumulated_categories_witness :
  ∃ G nst s, build bidirectional_model = Ok (G, nst)
    ∧ PyDict.mem ("Q", "P") (edges G) = true
    ∧ PyDict.get "Q" nst = Some (TSet s)
    ∧ ∀ x, x ∉ s.
Proof.
  assert (∃ st, build bidirectional_model = Ok st) as [[G nst] Hb]
    by (eexists; vm_compute; reflexivity).
  destruct (accumulated_categories bidirectional_model G nst "Q" Hb)
    as (_ & Hpop & _).
  destruct Hpop as (s & Hs & Hmem).
  - apply not_elem_of_nil.
  - apply list_elem_of_further, list_elem_of_here.
  - exists G, nst, s. split_and!; [done | | done |].
    + vm_compute in Hb. by injection Hb as <- <-.
    + intros x Hx. apply Hmem in Hx as (p & Hp & Hpre & _).
      apply list_elem_of_singleton in Hp as ->. discriminate.
Defined.

Lemma build_requirements_witness :
  ∃ st, build dangling_model = Ok st
    ∧ is_Some (@to_rgba_of sample_host "1 1 0")
    ∧ is_Some (input_sources dangling_model).
Proof.
  assert (∃ st, build dangling_model = Ok st) as [st Hb]
    by (eexists; vm_compute; reflexivity).
  exists st. split; [done|].
  by eapply (proj1 (proj2 (build_requirements dangling_model st Hb))).
Defined.


Lemma built_graph_nodes_and_edges_witness :
  ∃ G nst, build dangling_model = Ok (G, nst)
    ∧ NoDup (PyDict.keys (nodes G))
    ∧ "Z" ∈ PyDict.keys (nodes G)
    ∧ ("Q", "I") ∉ PyDict.keys (edges G).
Proof.
  assert (∃ st, build dangling_model = Ok st) as [[G nst] Hb]
    by (eexists; vm_compute; reflexivity).
  destruct (built_graph_nodes_and_edges dangling_model G nst Hb)
    as (Hnd & Hedges & Hnodes).
  exists G, nst. split_and!; [done | done | |].
  - apply Hnodes. right. exists ("Q", "Z"). split; [|by right].
    apply Hedges. right. eexists. split; [apply list_elem_of_here|].
    apply list_elem_of_here.
  - rewrite Hedges. intros [Hin|(p & Hp & Huv)].
    + apply list_elem_of_singleton in Hin. discriminate.
    + apply list_elem_of_singleton in Hp as ->.
      apply list_elem_of_singleton in Huv. discriminate.
Defined.

Lemma input_edges_witness :
  ∃ G nst, build scenario_D = Ok (G, nst)
    ∧ PyDict.get ("I", "Q") (edges G) = Some input_edge_attrs.
Proof.
  assert (∃ st, build scenario_D = Ok st) as [[G nst] Hb]
    by (eexists; vm_compute; reflexivity).
  exists G, nst. split; [done|].
  eapply (input_edges scenario_D G nst _ "I"
            {| population := "Q"; input_source := "src" |} Hb eq_refl).
  - apply list_elem_of_here.
  - intros p Hp. by apply elem_of_nil in Hp.
Defined.

Lemma population_node_attributes_witness :
  ∃ G nst, build scenario_A = Ok (G, nst)
    ∧ PyDict.get "P" (nodes G) =
        Some [("color", @VRgba sample_host [0; 0; 1; 1]); ("shape", VStr "s");
              ("size", VNum (NInt 10))].
Proof.
  assert (∃ st, build scenario_A = Ok st) as [[G nst] Hb]
    by (eexists; vm_compute; reflexivity).
  exists G, nst. split; [done|].
  destruct (population_node_attributes scenario_A G nst "P" (sample_pop "0 0 1" 10) Hb)
    as (c & Hc & Hget).
  - apply NoDup_singleton.
  - reflexivity.
  - apply not_elem_of_nil.
  - vm_compute in Hc. injection Hc as <-. exact Hget.
Defined.

Lemma input_node_attributes_witness :
  ∃ G nst, build dangling_model = Ok (G, nst)
    ∧ PyDict.get "I" (nodes G) =
        Some [("color", @VRgba sample_host [1; 1; 0; 1]); ("shape", VStr "h");
              ("size", VNum (NInt 2))].
Proof.
  assert (∃ st, build dangling_model = Ok st) as [[G nst] Hb]
    by (eexists; vm_compute; reflexivity).
  exists G, nst. split; [done|].
  destruct (proj1 (input_node_attributes dangling_model G nst "I" Hb))
    as (c & Hc & Hget).
  - apply list_elem_of_here.
  - vm_compute in Hc. injection Hc as <-. exact Hget.
Defined.

Lemma built_graph_size_witness :
  ∃ G nst, build self_loop_model = Ok (G, nst)
    ∧ (length (edges G) ≤ 2)%nat ∧ (length (nodes G) ≤ 2)%nat.
Proof.
  assert (∃ st, build self_loop_model = Ok st) as [[G nst] Hb]
    by (eexists; vm_compute; reflexivity).
  exists G, nst. split; [done|].
  exact (built_graph_size self_loop_model G nst Hb).
Defined.


Lemma max_size_of_built_graph_witness :
  ∃ G nst, build dangling_model = Ok (G, nst)
    ∧ max_size sample_num_gt sample_rgba_gt G = Raise (KeyError "size").
Proof.
  assert (∃ st, build dangling_model = Ok st) as [[G nst] Hb]
    by (eexists; vm_compute; reflexivity).
  exists G, nst. split; [done|].
  apply (proj1 (proj2 (max_size_of_built_graph sample_num_gt sample_rgba_gt
                         dangling_model G nst Hb)) "Z").
  - vm_compute in Hb. injection Hb as <- <-. by_computation.
  - by_computation.
Defined.

Lemma set_node_positions_covers_witness :
  PyDict.get "P" (set_node_positions (nat * nat) pair sample_graph) = Some (0, 1).
Proof.
  apply (proj1 (proj2 (set_node_positions_covers (nat * nat) pair sample_graph
                         (NoDup_singleton "P"))) 0 "P").
  reflexivity.
Defined.
